(** * Bounded numeric values of OTTO: src/src/lib/util/with_limits.hpp

    [StaticallyBounded<T, min, max, wrap>] and [DynamicallyBounded<T, wrap>]
    hold a value of a numeric type [T] and force every write back into a
    range, by clamping or by wrapping.

    The element type [T] is a parameter of the development (the C++
    concept [numeric]), with these instances:
    - [integer sgn w] for the C++ integral types of [w] bits, signed or
      unsigned: unsigned arithmetic wraps modulo [2^w]; a signed result that
      does not fit is undefined behaviour in C++, and the properties that
      depend on it assume that the results fit. [int] and [unsigned] are
      the 32-bit ones.
    - [binary prec emax] for the floating-point types, modelled with the
      Standard Library's [SpecFloat]: [float] (binary32) and [double]
      (binary64), rounding to nearest, ties to even, with signed zeros,
      infinities and NaN.
    - [Z] and [Q], idealised integral and continuous types with exact
      arithmetic (no overflow, no rounding, no NaN), for the properties
      that hold for every element type with a total order.
    The [float] returned by [normalize] is IEEE binary32, modelled with
    [SpecFloat] (precision 24, emax 128). *)

From Stdlib Require Import ZArith QArith Qround Lia Lqa Bool.
From Stdlib Require Import Floats.SpecFloat.
From Stdlib Require Import List Ascii String.

Local Open Scope Z_scope.

(** ** IEEE binary32 ([float]) *)

Module F32.

Definition prec : Z := 24.
Definition emax : Z := 128.

(** [a / b] on two floats. *)
Definition div (a b : spec_float) : spec_float := SFdiv prec emax a b.

(** [1.0f]. *)
Definition one : spec_float := SFone prec emax.

(** Rounding of an exact rational to the nearest float (ties to even):
    the conversion [static_cast<float>] of a value of [T]. The quotient of
    numerator and denominator is rounded exactly as [SFdiv] rounds the
    quotient of two exact operands. *)
Definition of_Q (x : Q) : spec_float :=
  match Qnum x with
  | Z0 => S754_zero false
  | Zpos p =>
      let '(m, e, l) := SFdiv_core_binary prec emax (Zpos p) 0 (Zpos (Qden x)) 0 in
      binary_round_aux prec emax false m e l
  | Zneg p =>
      let '(m, e, l) := SFdiv_core_binary prec emax (Zpos p) 0 (Zpos (Qden x)) 0 in
      binary_round_aux prec emax true m e l
  end.

(** [static_cast<float>] of an [int]. *)
Definition of_Z (z : Z) : spec_float := of_Q (inject_Z z).

(** A finite float greater than zero. *)
Definition is_finite_pos (f : spec_float) : bool :=
  match f with
  | S754_finite false _ _ => true
  | _ => false
  end.

(** A float greater than zero: finite and positive, or [+inf]. *)
Definition gt0 (f : spec_float) : bool :=
  match f with
  | S754_finite false _ _ | S754_infinity false => true
  | _ => false
  end.

(** The float is a NaN. *)
Definition is_nan (f : spec_float) : bool :=
  match f with S754_nan => true | _ => false end.

(** [f < 0.0f]. *)
Definition ltb0 (f : spec_float) : bool :=
  SFltb f (S754_zero false).

End F32.

(** ** The numeric element type [T] *)

(** The operations of [T] that the two templates use. *)
Class Numeric (T : Type) := {
  num_ltb : T -> T -> bool;             (* a < b *)
  num_leb : T -> T -> bool;             (* a <= b *)
  num_eqb : T -> T -> bool;             (* a == b *)
  num_add : T -> T -> T;
  num_sub : T -> T -> T;
  num_mul : T -> T -> T;
  num_div : T -> T -> T;
  num_of_int : Z -> T;                  (* static_cast<T>(int) *)
  num_integral : bool;                  (* std::is_integral_v<T> *)
  num_modulo : T -> T -> T;             (* util::math::modulo *)
  num_to_float : T -> spec_float        (* static_cast<float> *)
}.

(** The built-in [a != b] on arithmetic types. *)
Definition num_neqb {T} `{Numeric T} (a b : T) : bool := negb (num_eqb a b).

(** Modelled from the spec: [util::math::modulo] for integral types
    (math.hpp is not among the sources). Section 6 of the spec: the floored
    modulo [r = x - k * length] with [0 <= r < length] for [length > 0];
    [Z.modulo] is the floored modulo. *)
Definition modulo_Z (x length : Z) : Z := Z.modulo x length.

(** Modelled from the spec: [util::math::modulo] for continuous types
    (math.hpp is not among the sources): [x - length * floor (x / length)]. *)
Definition modulo_Q (x length : Q) : Q :=
  Qminus x (Qmult length (inject_Z (Qfloor (Qdiv x length)))).

#[global] Instance Numeric_Z : Numeric Z := {
  num_ltb := Z.ltb;
  num_leb := Z.leb;
  num_eqb := Z.eqb;
  num_add := Z.add;
  num_sub := Z.sub;
  num_mul := Z.mul;
  num_div := Z.quot;
  num_of_int := fun z => z;
  num_integral := true;
  num_modulo := modulo_Z;
  num_to_float := F32.of_Z
}.

#[global] Instance Numeric_Q : Numeric Q := {
  num_ltb := fun a b => negb (Qle_bool b a);
  num_leb := Qle_bool;
  num_eqb := Qeq_bool;
  num_add := Qplus;
  num_sub := Qminus;
  num_mul := Qmult;
  num_div := Qdiv;
  num_of_int := inject_Z;
  num_integral := false;
  num_modulo := modulo_Q;
  num_to_float := F32.of_Q
}.

(** ** The standard library helpers *)

Section Std.
Context {T : Type} `{Numeric T}.

(** [std::clamp(v, lo, hi)]: [v < lo ? lo : hi < v ? hi : v]. *)
Definition std_clamp (v lo hi : T) : T :=
  if num_ltb v lo then lo else if num_ltb hi v then hi else v.

(** [std::max(a, b)]: [a < b ? b : a]. *)
Definition std_max (a b : T) : T := if num_ltb a b then b else a.
End Std.

(** ** [StaticallyBounded<T, min, max, wrap>] *)

(** The bounds and the wrap flag are parameters of the type, as they are
    template arguments in C++: instances with different bounds have
    different types. The object holds [T value_]. *)
Record StaticallyBounded (T : Type) (min max : Z) (wrap : bool) : Type :=
  mkStaticallyBounded { sb_value_ : T }.

Arguments mkStaticallyBounded {T min max wrap} _.
Arguments sb_value_ {T min max wrap} _.

Section StaticallyBoundedOps.
Context {T : Type} `{Numeric T} {min max : Z} {wrap : bool}.

Local Abbreviation SB := (StaticallyBounded T min max wrap).

(** [StaticallyBounded(T init_val)]:
    [value_ = std::clamp(init_val, T(min), T(max))]. *)
Definition sb_make (init_val : T) : SB :=
  mkStaticallyBounded (std_clamp init_val (num_of_int min) (num_of_int max)).

(** [void operator=(const T in)]: the object after the assignment. *)
Definition sb_assign (self : SB) (in_ : T) : SB :=
  if wrap then
    let min_ := num_of_int min in
    let max_ := num_of_int max in
    if num_ltb in_ min_ || num_ltb max_ in_ then
      let length := num_sub (num_of_int max) (num_of_int min) in
      let length := if num_integral then num_add length (num_of_int 1) else length in
      mkStaticallyBounded (num_add min_ (num_modulo (num_sub in_ min_) length))
    else mkStaticallyBounded in_
  else mkStaticallyBounded (std_clamp in_ (num_of_int min) (num_of_int max)).

(** [operator+=], [operator-=], [operator*=], [operator/=]. *)
Definition sb_add_assign (self : SB) (in_ : T) : SB :=
  sb_assign self (num_add (sb_value_ self) in_).
Definition sb_sub_assign (self : SB) (in_ : T) : SB :=
  sb_assign self (num_sub (sb_value_ self) in_).
Definition sb_mul_assign (self : SB) (in_ : T) : SB :=
  sb_assign self (num_mul (sb_value_ self) in_).
Definition sb_div_assign (self : SB) (in_ : T) : SB :=
  sb_assign self (num_div (sb_value_ self) in_).

(** [operator T()]. *)
Definition sb_get (self : SB) : T := sb_value_ self.

(** [float normalize()]:
    [float(value_ - min) / float(max - min)]; [max - min] is [int]
    arithmetic. *)
Definition sb_normalize (self : SB) : spec_float :=
  F32.div (num_to_float (num_sub (sb_value_ self) (num_of_int min)))
          (F32.of_Z (max - min)).

(** [operator==] and [operator!=] on two objects of the same type. *)
Definition sb_eqb (lhs rhs : SB) : bool := num_eqb (sb_get lhs) (sb_get rhs).
Definition sb_neqb (lhs rhs : SB) : bool := num_neqb (sb_get lhs) (sb_get rhs).

(** *** Increment and decrement, with object identity

    The operators return either a copy ([StaticallyBounded]) or a
    reference ([StaticallyBounded&]). Objects live in a store indexed by
    locations; a reference is a location. *)

Definition loc := nat.
Definition store := loc -> SB.

Definition store_write (h : store) (l : loc) (v : SB) : store :=
  fun l' => if Nat.eqb l' l then v else h l'.

(** The copy or the reference an operator returns. *)
Inductive ret :=
| RetCopy (v : SB)
| RetRef (l : loc).

(** [operator++()]: [auto tmp = *this; operator=(value_ + T(1)); return tmp;] *)
Definition sb_prefix_inc (h : store) (this : loc) : store * ret :=
  let tmp := h this in
  let h' := store_write h this
              (sb_assign (h this) (num_add (sb_value_ (h this)) (num_of_int 1))) in
  (h', RetCopy tmp).

(** [operator++(int)]: [operator=(value_ + T(1)); return *this;] *)
Definition sb_postfix_inc (h : store) (this : loc) : store * ret :=
  let h' := store_write h this
              (sb_assign (h this) (num_add (sb_value_ (h this)) (num_of_int 1))) in
  (h', RetRef this).

(** [operator--()]: [auto tmp = *this; operator=(value_ - T(1)); return tmp;] *)
Definition sb_prefix_dec (h : store) (this : loc) : store * ret :=
  let tmp := h this in
  let h' := store_write h this
              (sb_assign (h this) (num_sub (sb_value_ (h this)) (num_of_int 1))) in
  (h', RetCopy tmp).

(** [operator--(int)]: [operator=(value_ - T(1)); return *this;] *)
Definition sb_postfix_dec (h : store) (this : loc) : store * ret :=
  let h' := store_write h this
              (sb_assign (h this) (num_sub (sb_value_ (h this)) (num_of_int 1))) in
  (h', RetRef this).

(** The object a returned copy or reference denotes in a store. *)
Definition ret_deref (h : store) (r : ret) : SB :=
  match r with
  | RetCopy v => v
  | RetRef l => h l
  end.

End StaticallyBoundedOps.

(** ** [DynamicallyBounded<T, wrap>] *)

(** The object holds [T value_; T min_; T max_]. *)
Record DynamicallyBounded (T : Type) (wrap : bool) : Type :=
  mkDynamicallyBounded { db_value_ : T; min_ : T; max_ : T }.

Arguments mkDynamicallyBounded {T wrap} _ _ _.
Arguments db_value_ {T wrap} _.
Arguments min_ {T wrap} _.
Arguments max_ {T wrap} _.

Section DynamicallyBoundedOps.
Context {T : Type} `{Numeric T} {wrap : bool}.

Local Abbreviation DB := (DynamicallyBounded T wrap).

(** [DynamicallyBounded(T init_val, T min, T max) : min_(min), max_(max)]
    [{ max_ = std::max(min_, max_); value_ = std::clamp(init_val, min, max); }]
    The clamp reads the constructor's parameters [min] and [max]. *)
Definition db_make (init_val min max : T) : DB :=
  let min_ := min in
  let max_ := max in
  let max_ := std_max min_ max_ in
  mkDynamicallyBounded (std_clamp init_val min max) min_ max_.

(** [T min() const] and [T max() const]. *)
Definition db_min (self : DB) : T := min_ self.
Definition db_max (self : DB) : T := max_ self.

(** [void min(const T new_min)]: [if (new_min <= max_) min_ = new_min;] *)
Definition db_set_min (self : DB) (new_min : T) : DB :=
  if num_leb new_min (max_ self)
  then mkDynamicallyBounded (db_value_ self) new_min (max_ self)
  else self.

(** [void max(const T new_max)]: [if (min_ <= new_max) max_ = new_max;] *)
Definition db_set_max (self : DB) (new_max : T) : DB :=
  if num_leb (min_ self) new_max
  then mkDynamicallyBounded (db_value_ self) (min_ self) new_max
  else self.

(** [float normalize()]: [float(value_ - min_) / float(max_ - min_)]. *)
Definition db_normalize (self : DB) : spec_float :=
  F32.div (num_to_float (num_sub (db_value_ self) (min_ self)))
          (num_to_float (num_sub (max_ self) (min_ self))).

(** [void operator=(const T in)]. *)
Definition db_assign (self : DB) (in_ : T) : DB :=
  if wrap then
    if num_ltb in_ (min_ self) || num_ltb (max_ self) in_ then
      let length := num_sub (db_max self) (db_min self) in
      let length := if num_integral then num_add length (num_of_int 1) else length in
      mkDynamicallyBounded
        (num_add (min_ self) (num_modulo (num_sub in_ (min_ self)) length))
        (min_ self) (max_ self)
    else mkDynamicallyBounded in_ (min_ self) (max_ self)
  else mkDynamicallyBounded (std_clamp in_ (min_ self) (max_ self)) (min_ self) (max_ self).

(** [operator+=], [operator-=], [operator*=], [operator/=], [operator++()],
    [operator--()]. *)
Definition db_add_assign (self : DB) (in_ : T) : DB :=
  db_assign self (num_add (db_value_ self) in_).
Definition db_sub_assign (self : DB) (in_ : T) : DB :=
  db_assign self (num_sub (db_value_ self) in_).
Definition db_mul_assign (self : DB) (in_ : T) : DB :=
  db_assign self (num_mul (db_value_ self) in_).
Definition db_div_assign (self : DB) (in_ : T) : DB :=
  db_assign self (num_div (db_value_ self) in_).
Definition db_inc (self : DB) : DB :=
  db_assign self (num_add (db_value_ self) (num_of_int 1)).
Definition db_dec (self : DB) : DB :=
  db_assign self (num_sub (db_value_ self) (num_of_int 1)).

(** [operator T()]. *)
Definition db_get (self : DB) : T := db_value_ self.

(** [operator==]: value, [min()] and [max()] all equal. *)
Definition db_eqb (lhs rhs : DB) : bool :=
  num_eqb (db_get lhs) (db_get rhs) && num_eqb (db_min lhs) (db_min rhs)
  && num_eqb (db_max lhs) (db_max rhs).

(** [operator!=]: value, [min()] or [max()] differ. *)
Definition db_neqb (lhs rhs : DB) : bool :=
  num_neqb (db_get lhs) (db_get rhs) || num_neqb (db_min lhs) (db_min rhs)
  || num_neqb (db_max lhs) (db_max rhs).

(** A call of one of the two bound setters. *)
Inductive bound_call :=
| SetMin (new_min : T)
| SetMax (new_max : T).

Definition db_call (self : DB) (c : bound_call) : DB :=
  match c with
  | SetMin m => db_set_min self m
  | SetMax m => db_set_max self m
  end.

(** A sequence of setter calls, in order. *)
Fixpoint db_calls (self : DB) (cs : list bound_call) : DB :=
  match cs with
  | nil => self
  | cons c cs' => db_calls (db_call self c) cs'
  end.

End DynamicallyBoundedOps.

(** ** Sequences of writes *)

Section Writes.
Context {T : Type} `{Numeric T}.

(** A write on a [StaticallyBounded] object: [operator=], a compound
    assignment, or one of the four increment and decrement operators. *)
Inductive sb_write :=
| SbAssign (in_ : T)
| SbAddAssign (in_ : T)
| SbSubAssign (in_ : T)
| SbMulAssign (in_ : T)
| SbDivAssign (in_ : T)
| SbPrefixInc
| SbPostfixInc
| SbPrefixDec
| SbPostfixDec.

(** A write on a [DynamicallyBounded] object. *)
Inductive db_write :=
| DbAssign (in_ : T)
| DbAddAssign (in_ : T)
| DbSubAssign (in_ : T)
| DbMulAssign (in_ : T)
| DbDivAssign (in_ : T)
| DbInc
| DbDec.

(** The divisor of an [operator/=] is not zero (a division by zero is
    undefined behaviour for an integral [T]). *)
Definition sb_write_defined (w : sb_write) : bool :=
  match w with
  | SbDivAssign d => negb (num_eqb d (num_of_int 0))
  | _ => true
  end.

Definition db_write_defined (w : db_write) : bool :=
  match w with
  | DbDivAssign d => negb (num_eqb d (num_of_int 0))
  | _ => true
  end.

Context {min max : Z} {wrap : bool}.

(** The object after one write; the increment and decrement operators act
    on the object stored at location [0]. *)
Definition sb_write_apply (self : StaticallyBounded T min max wrap) (w : sb_write)
  : StaticallyBounded T min max wrap :=
  let h : store := fun _ => self in
  match w with
  | SbAssign v => sb_assign self v
  | SbAddAssign v => sb_add_assign self v
  | SbSubAssign v => sb_sub_assign self v
  | SbMulAssign v => sb_mul_assign self v
  | SbDivAssign v => sb_div_assign self v
  | SbPrefixInc => fst (sb_prefix_inc h 0%nat) 0%nat
  | SbPostfixInc => fst (sb_postfix_inc h 0%nat) 0%nat
  | SbPrefixDec => fst (sb_prefix_dec h 0%nat) 0%nat
  | SbPostfixDec => fst (sb_postfix_dec h 0%nat) 0%nat
  end.

(** A sequence of writes, in order. *)
Fixpoint sb_writes (self : StaticallyBounded T min max wrap) (ws : list sb_write)
  : StaticallyBounded T min max wrap :=
  match ws with
  | nil => self
  | cons w ws' => sb_writes (sb_write_apply self w) ws'
  end.

Definition db_write_apply (self : DynamicallyBounded T wrap) (w : db_write)
  : DynamicallyBounded T wrap :=
  match w with
  | DbAssign v => db_assign self v
  | DbAddAssign v => db_add_assign self v
  | DbSubAssign v => db_sub_assign self v
  | DbMulAssign v => db_mul_assign self v
  | DbDivAssign v => db_div_assign self v
  | DbInc => db_inc self
  | DbDec => db_dec self
  end.

Fixpoint db_writes (self : DynamicallyBounded T wrap) (ws : list db_write)
  : DynamicallyBounded T wrap :=
  match ws with
  | nil => self
  | cons w ws' => db_writes (db_write_apply self w) ws'
  end.

End Writes.

Arguments SbPrefixInc {T}.
Arguments SbPostfixInc {T}.
Arguments SbPrefixDec {T}.
Arguments SbPostfixDec {T}.
Arguments DbInc {T}.
Arguments DbDec {T}.

(** * The test support: src/src/testing.t.hpp *)

(** ** [debuggerIsAttached] and [doctestDebuggerCheck]

    A [char] is a byte, modelled as an [ascii]; [isspace] and [isdigit] are
    those of the "C" locale. *)

Module DebuggerCheck.

Definition NUL : ascii := Ascii.zero.

(** [::isspace(c)]: space, [\t], [\n], [\v], [\f] or [\r]; a byte above
    127 (a negative [char]) is taken as neither a space nor a digit. *)
Definition c_isspace (c : ascii) : bool :=
  let n := nat_of_ascii c in Nat.eqb n 32 || (Nat.leb 9 n && Nat.leb n 13).

(** [::isdigit(c)]: ['0'] to ['9']. *)
Definition c_isdigit (c : ascii) : bool :=
  let n := nat_of_ascii c in Nat.leb 48 n && Nat.leb n 57.

(** The C string that starts at a buffer: its bytes up to the first NUL. *)
Fixpoint c_string (buf : list ascii) : list ascii :=
  match buf with
  | nil => nil
  | cons c buf' => if Ascii.eqb c NUL then nil else cons c (c_string buf')
  end.

(** [p] is a prefix of [l]. *)
Fixpoint prefixb (p l : list ascii) : bool :=
  match p, l with
  | nil, _ => true
  | cons a p', cons b l' => Ascii.eqb a b && prefixb p' l'
  | cons _ _, nil => false
  end.

(** The first position, counted from [i], at which [needle] occurs in
    [hay]. *)
Fixpoint find_from (needle hay : list ascii) (i : nat) : option nat :=
  if prefixb needle hay then Some i
  else match hay with
       | nil => None
       | cons _ hay' => find_from needle hay' (S i)
       end.

(** [::strstr(buf, needle)]: the offset in [buf] of the first occurrence of
    [needle] in the C string [buf], or [nullptr]. *)
Definition c_strstr (buf needle : list ascii) : option nat :=
  find_from needle (c_string buf) 0.

(** [constexpr char tracerPidString[] = "TracerPid:"], without its NUL:
    [sizeof(tracerPidString) - 1 = 10] bytes. *)
Definition tracerPidString : list ascii := list_ascii_of_string "TracerPid:".

(** The loop [for (characterPtr = ...; characterPtr <= buf + num_read; ...)]
    over the bytes from the one after the tag to [buf[num_read]]: skips
    white space and returns [isdigit(c) && c != '0'] for the first other
    byte, [false] when the bytes run out. *)
Fixpoint scan_tracer_pid (cs : list ascii) : bool :=
  match cs with
  | nil => false
  | cons c cs' =>
      if c_isspace c then scan_tracer_pid cs'
      else c_isdigit c && negb (Ascii.eqb c "0"%char)
  end.

(** What [::open] and [::read] of ["/proc/self/status"] give: the open
    fails ([-1]), the read fails ([-1]), or the read returns the file's
    bytes, at most [sizeof(buf) - 1 = 4095] of them. *)
Inductive status_read :=
| OpenFailed
| ReadFailed
| ReadFile (contents : list ascii).

(** [static bool debuggerIsAttached()]. *)
Definition debuggerIsAttached (r : status_read) : bool :=
  match r with
  | OpenFailed => false
  | ReadFailed => false
  | ReadFile contents =>
      let data := firstn 4095 contents in
      let num_read := List.length data in
      if Nat.eqb num_read 0 then false
      else
        let buf := data ++ cons NUL nil in          (* buf[num_read] = '\0' *)
        match c_strstr buf tracerPidString with
        | None => false
        | Some i => scan_tracer_pid (skipn (i + List.length tracerPidString) buf)
        end
  end.

(** [static bool doctestDebuggerCheck()]:
    [static bool res = debuggerIsAttached(); return res;]. The function-local
    static is the state: [None] before the first call. *)
Definition doctestDebuggerCheck (res : option bool) (env : status_read)
  : bool * option bool :=
  match res with
  | Some r => (r, res)
  | None => let r := debuggerIsAttached env in (r, Some r)
  end.

(** Successive calls, each in the environment of its time. *)
Fixpoint doctestDebuggerCheck_calls (res : option bool) (envs : list status_read)
  : list bool :=
  match envs with
  | nil => nil
  | cons e envs' =>
      let '(r, res') := doctestDebuggerCheck res e in
      cons r (doctestDebuggerCheck_calls res' envs')
  end.

End DebuggerCheck.

(** ** [float_cmp] and [approx] *)

Module Approx.

(** [a - b] on two floats. *)
Definition sub (a b : spec_float) : spec_float := SFsub F32.prec F32.emax a b.

(** Rounding of an exact rational to the nearest binary floating-point
    number of precision [prec] (ties to even), as [F32.of_Q] does for
    [float]. *)
Definition round_Q (prec emax : Z) (x : Q) : spec_float :=
  match Qnum x with
  | Z0 => S754_zero false
  | Zpos p =>
      let '(m, e, l) := SFdiv_core_binary prec emax (Zpos p) 0 (Zpos (Qden x)) 0 in
      binary_round_aux prec emax false m e l
  | Zneg p =>
      let '(m, e, l) := SFdiv_core_binary prec emax (Zpos p) 0 (Zpos (Qden x)) 0 in
      binary_round_aux prec emax true m e l
  end.

(** The exact value of a finite floating-point number ([0] for the others,
    which are not used). *)
Definition Q_of_finite (f : spec_float) : Q :=
  match f with
  | S754_finite s m e =>
      match e with
      | Zneg d => Qmake (cond_Zopp s (Zpos m)) (Pos.pow 2 d)
      | _ => inject_Z (cond_Zopp s (Zpos m) * 2 ^ e)
      end
  | _ => 0%Q
  end.

(** [float margin_ = 0.0001;]: the [double] literal [0.0001] (binary64)
    converted to [float]. *)
Definition default_margin : spec_float :=
  F32.of_Q (Q_of_finite (round_Q 53 1024 (1 # 10000))).

(** [inline auto float_cmp(float margin)]: the lambda
    [[margin](float a, float b) { return std::abs(a - b) < margin; }]. *)
Definition float_cmp (margin : spec_float) (a b : spec_float) : bool :=
  SFltb (SFabs (sub a b)) margin.

(** [struct approx { float value_; float margin_ = 0.0001; }]. *)
Record approx := mk_approx { value_ : spec_float; margin_ : spec_float }.

(** [approx(float v)]. *)
Definition approx_make (v : spec_float) : approx := mk_approx v default_margin.

(** [approx& margin(float m)]: sets [margin_]; the object afterwards. *)
Definition margin (self : approx) (m : spec_float) : approx :=
  mk_approx (value_ self) m.

(** [bool operator==(float rhs) const]: [std::abs(value_ - rhs) < margin_]. *)
Definition eqb (self : approx) (rhs : spec_float) : bool :=
  SFltb (SFabs (sub (value_ self) rhs)) (margin_ self).

(** [friend bool operator==(float lhs, const approx& rhs)]: [rhs == lhs]. *)
Definition float_eqb (lhs : spec_float) (rhs : approx) : bool := eqb rhs lhs.

(** [bool operator!=(float rhs) const]: the negation of [*this == rhs]. *)
Definition neqb (self : approx) (rhs : spec_float) : bool := negb (eqb self rhs).

(** [friend bool operator!=(float lhs, const approx& rhs)]: [rhs != lhs]. *)
Definition float_neqb (lhs : spec_float) (rhs : approx) : bool := neqb rhs lhs.

End Approx.

(** ** Integral element types of a given width *)

(** A value of a C++ integral type of [w] bits, signed (two's complement)
    when [sgn] is [true] and unsigned otherwise, at least as wide as [int]
    so that its arithmetic is not promoted. *)
Record integer (sgn : bool) (w : Z) : Type := Integer { zv : Z }.

Arguments Integer {sgn w} _.
Arguments zv {sgn w} _.

Definition int := integer true 32.
Definition unsigned := integer false 32.

(** The values of the type: [[-2^(w-1), 2^(w-1))] or [[0, 2^w)]. *)
Definition int_fits (sgn : bool) (w x : Z) : Prop :=
  if sgn then - 2 ^ (w - 1) <= x < 2 ^ (w - 1) else 0 <= x < 2 ^ w.

(** The value of type [T] congruent to [x] modulo [2^w]: the result of an
    unsigned operation, and of the conversion of an integer to [T]. A signed
    operation whose result does not fit is undefined behaviour; the model
    wraps it the same way, and the properties below that depend on it
    assume the result fits. *)
Definition int_wrap (sgn : bool) (w x : Z) : Z :=
  if sgn then (x + 2 ^ (w - 1)) mod 2 ^ w - 2 ^ (w - 1) else x mod 2 ^ w.

#[global] Instance Numeric_integer (sgn : bool) (w : Z) : Numeric (integer sgn w) := {
  num_ltb := fun a b => Z.ltb (zv a) (zv b);
  num_leb := fun a b => Z.leb (zv a) (zv b);
  num_eqb := fun a b => Z.eqb (zv a) (zv b);
  num_add := fun a b => Integer (int_wrap sgn w (zv a + zv b));
  num_sub := fun a b => Integer (int_wrap sgn w (zv a - zv b));
  num_mul := fun a b => Integer (int_wrap sgn w (zv a * zv b));
  num_div := fun a b => Integer (int_wrap sgn w (Z.quot (zv a) (zv b)));
  num_of_int := fun z => Integer (int_wrap sgn w z);
  num_integral := true;
  num_modulo := fun x length => Integer (modulo_Z (zv x) (zv length));
  num_to_float := fun a => F32.of_Z (zv a)
}.

(** ** Floating-point element types *)

(** A value of a binary floating-point type of precision [prec] and
    maximal exponent [emax] (IEEE 754, rounding to nearest, ties to
    even). *)
Record binary (prec emax : Z) : Type := Binary { fp : spec_float }.

Arguments Binary {prec emax} _.
Arguments fp {prec emax} _.

Definition float := binary 24 128.
Definition double := binary 53 1024.

(** A finite float, zero included. *)
Definition is_finite (f : spec_float) : bool :=
  match f with S754_zero _ | S754_finite _ _ _ => true | _ => false end.

(** [static_cast<T>] of an [int]: the integer rounded to [T]. *)
Definition binary_of_Z (prec emax z : Z) : spec_float :=
  binary_normalize prec emax z 0 false.

(** [static_cast<float>] of a floating-point value: zeros, infinities and
    NaN are kept, a finite value is rounded to [float]. *)
Definition to_float (f : spec_float) : spec_float :=
  match f with
  | S754_finite s m e => binary_normalize F32.prec F32.emax (cond_Zopp s (Zpos m)) e s
  | _ => f
  end.

(** Modelled from the spec: [util::math::modulo] for a floating-point
    type (math.hpp is not among the sources): the floored modulo of
    section 6, [x - length * floor (x / length)], computed exactly and
    rounded to [T]; NaN unless [x] is finite and [length] finite and not
    zero. *)
Definition binary_modulo (prec emax : Z) (x length : spec_float) : spec_float :=
  match x, length with
  | (S754_zero _ | S754_finite _ _ _), S754_finite _ _ _ =>
      Approx.round_Q prec emax
        (modulo_Q (Approx.Q_of_finite x) (Approx.Q_of_finite length))
  | _, _ => S754_nan
  end.

#[global] Instance Numeric_binary (prec emax : Z) : Numeric (binary prec emax) := {
  num_ltb := fun a b => SFltb (fp a) (fp b);
  num_leb := fun a b => SFleb (fp a) (fp b);
  num_eqb := fun a b => SFeqb (fp a) (fp b);
  num_add := fun a b => Binary (SFadd prec emax (fp a) (fp b));
  num_sub := fun a b => Binary (SFsub prec emax (fp a) (fp b));
  num_mul := fun a b => Binary (SFmul prec emax (fp a) (fp b));
  num_div := fun a b => Binary (SFdiv prec emax (fp a) (fp b));
  num_of_int := fun z => Binary (binary_of_Z prec emax z);
  num_integral := false;
  num_modulo := fun x length => Binary (binary_modulo prec emax (fp x) (fp length));
  num_to_float := fun a => to_float (fp a)
}.

(** * Properties *)

(** ** Order laws of the element type *)

Section OrderLaws.
Context {T : Type} `{Numeric T}.

Hypothesis leb_refl : forall x, num_leb x x = true.
Hypothesis ltb_negb_leb : forall x y, num_ltb x y = negb (num_leb y x).
Hypothesis leb_total : forall x y, num_leb x y = false -> num_leb y x = true.
Hypothesis leb_trans :
  forall x y z, num_leb x y = true -> num_leb y z = true -> num_leb x z = true.

Lemma std_clamp_bounds (v lo hi : T) :
  num_leb lo hi = true ->
  num_leb lo (std_clamp v lo hi) = true /\ num_leb (std_clamp v lo hi) hi = true.
Proof.
  intros Hlh. unfold std_clamp.
  destruct (num_ltb v lo) eqn:E1; [split; auto|].
  destruct (num_ltb hi v) eqn:E2; [split; auto|].
  rewrite ltb_negb_leb in E1, E2.
  apply negb_false_iff in E1, E2. auto.
Qed.

Lemma std_clamp_in_range (v lo hi : T) :
  num_leb lo v = true -> num_leb v hi = true -> std_clamp v lo hi = v.
Proof.
  intros H1 H2. unfold std_clamp.
  rewrite !ltb_negb_leb, H1, H2. reflexivity.
Qed.

Lemma std_clamp_below (v lo hi : T) :
  num_ltb v lo = true -> std_clamp v lo hi = lo.
Proof. intros E. unfold std_clamp. rewrite E. reflexivity. Qed.

Lemma std_clamp_above (v lo hi : T) :
  num_leb lo hi = true -> num_ltb hi v = true -> std_clamp v lo hi = hi.
Proof.
  intros Hlh E. unfold std_clamp.
  assert (Hv : num_ltb v lo = false).
  { rewrite ltb_negb_leb. apply negb_false_iff.
    rewrite ltb_negb_leb in E. apply negb_true_iff in E.
    eapply leb_trans; [exact Hlh | apply leb_total; exact E]. }
  rewrite Hv, E. reflexivity.
Qed.

Lemma in_range_not_out (v lo hi : T) :
  num_leb lo v = true -> num_leb v hi = true ->
  (num_ltb v lo || num_ltb hi v) = false.
Proof. intros H1 H2. rewrite !ltb_negb_leb, H1, H2. reflexivity. Qed.

Lemma out_of_range_not_in (v lo hi : T) :
  (num_ltb v lo || num_ltb hi v) = false ->
  num_leb lo v = true /\ num_leb v hi = true.
Proof.
  rewrite !ltb_negb_leb. intros E. apply orb_false_iff in E as [E1 E2].
  apply negb_false_iff in E1, E2. auto.
Qed.

(** Clamp mode: the stored value lies in the range, and an in-range value
    is stored as it is. *)
Lemma sb_assign_clamp (min max : Z) (s : StaticallyBounded T min max false) (v : T) :
  num_leb (num_of_int min) (num_of_int max) = true ->
  let r := sb_value_ (sb_assign s v) in
  (num_leb (num_of_int min) r = true /\ num_leb r (num_of_int max) = true) /\
  (num_leb (num_of_int min) v = true -> num_leb v (num_of_int max) = true -> r = v).
Proof.
  intros Hb. cbn zeta. unfold sb_assign. simpl. split.
  - apply std_clamp_bounds; exact Hb.
  - apply std_clamp_in_range.
Qed.

Lemma db_assign_clamp (s : DynamicallyBounded T false) (v : T) :
  num_leb (min_ s) (max_ s) = true ->
  let r := db_value_ (db_assign s v) in
  (num_leb (min_ s) r = true /\ num_leb r (max_ s) = true) /\
  (num_leb (min_ s) v = true -> num_leb v (max_ s) = true -> r = v).
Proof.
  intros Hb. cbn zeta. unfold db_assign. simpl. split.
  - apply std_clamp_bounds; exact Hb.
  - apply std_clamp_in_range.
Qed.

(** Wrap mode, in-range value: the pass-through branch stores it. *)
Lemma sb_assign_wrap_in_range (min max : Z) (s : StaticallyBounded T min max true) (v : T) :
  num_leb (num_of_int min) v = true -> num_leb v (num_of_int max) = true ->
  sb_assign s v = mkStaticallyBounded v.
Proof.
  intros H1 H2. unfold sb_assign. cbn zeta.
  rewrite (in_range_not_out v _ _ H1 H2). reflexivity.
Qed.

Lemma db_assign_wrap_in_range (s : DynamicallyBounded T true) (v : T) :
  num_leb (min_ s) v = true -> num_leb v (max_ s) = true ->
  db_assign s v = mkDynamicallyBounded v (min_ s) (max_ s).
Proof.
  intros H1 H2. unfold db_assign.
  rewrite (in_range_not_out v _ _ H1 H2). reflexivity.
Qed.

(** Construction clamps, whatever the wrap flag. *)
Lemma sb_make_clamp (min max : Z) (wrap : bool) (v : T) :
  num_leb (num_of_int min) (num_of_int max) = true ->
  let r := sb_value_ (@sb_make T _ min max wrap v) in
  r = std_clamp v (num_of_int min) (num_of_int max) /\
  (num_leb (num_of_int min) r = true /\ num_leb r (num_of_int max) = true) /\
  (num_ltb v (num_of_int min) = true -> r = num_of_int min) /\
  (num_ltb (num_of_int max) v = true -> r = num_of_int max) /\
  (num_leb (num_of_int min) v = true -> num_leb v (num_of_int max) = true -> r = v).
Proof.
  intros Hb. cbn zeta. unfold sb_make. simpl.
  split; [reflexivity|]. split; [apply std_clamp_bounds; exact Hb|].
  split; [apply std_clamp_below|]. split; [apply std_clamp_above; exact Hb|].
  apply std_clamp_in_range.
Qed.

Lemma db_make_clamp (wrap : bool) (v lo hi : T) :
  num_leb lo hi = true ->
  let r := db_value_ (@db_make T _ wrap v lo hi) in
  r = std_clamp v lo hi /\
  (num_leb lo r = true /\ num_leb r hi = true) /\
  (num_ltb v lo = true -> r = lo) /\
  (num_ltb hi v = true -> r = hi) /\
  (num_leb lo v = true -> num_leb v hi = true -> r = v).
Proof.
  intros Hb. cbn zeta. unfold db_make. simpl.
  split; [reflexivity|]. split; [apply std_clamp_bounds; exact Hb|].
  split; [apply std_clamp_below|]. split; [apply std_clamp_above; exact Hb|].
  apply std_clamp_in_range.
Qed.

End OrderLaws.

Lemma Z_leb_refl (x : Z) : num_leb x x = true.
Proof. apply Z.leb_refl. Qed.

Lemma Z_ltb_negb_leb (x y : Z) : num_ltb x y = negb (num_leb y x).
Proof. simpl. destruct (Z.ltb_spec x y), (Z.leb_spec y x); lia. Qed.

Lemma Z_leb_total (x y : Z) : num_leb x y = false -> num_leb y x = true.
Proof. simpl. destruct (Z.leb_spec x y), (Z.leb_spec y x); lia. Qed.

Lemma Z_leb_trans (x y z : Z) :
  num_leb x y = true -> num_leb y z = true -> num_leb x z = true.
Proof. simpl. rewrite !Z.leb_le. lia. Qed.

Lemma Q_leb_refl (x : Q) : num_leb x x = true.
Proof. apply Qle_bool_iff, Qle_refl. Qed.

Lemma Q_ltb_negb_leb (x y : Q) : num_ltb x y = negb (num_leb y x).
Proof. reflexivity. Qed.

Lemma Q_leb_total (x y : Q) : num_leb x y = false -> num_leb y x = true.
Proof.
  simpl. intros E. apply Qle_bool_iff. apply Qlt_le_weak, Qnot_le_lt.
  intros Hle. apply Qle_bool_iff in Hle. congruence.
Qed.

Lemma Q_leb_trans (x y z : Q) :
  num_leb x y = true -> num_leb y z = true -> num_leb x z = true.
Proof.
  simpl. rewrite !Qle_bool_iff. apply Qle_trans.
Qed.

Lemma Q_of_int_leb (a b : Z) : @num_leb Q _ (num_of_int a) (num_of_int b) = Z.leb a b.
Proof.
  simpl. destruct (Z.leb_spec a b) as [Hab|Hab].
  - apply Qle_bool_iff. rewrite <- Zle_Qle. exact Hab.
  - apply not_true_iff_false. rewrite Qle_bool_iff, <- Zle_Qle. lia.
Qed.

Lemma Z_of_int_leb (a b : Z) : @num_leb Z _ (num_of_int a) (num_of_int b) = Z.leb a b.
Proof. reflexivity. Qed.

Lemma Z_leb_true (a b : Z) : num_leb a b = true <-> a <= b.
Proof. apply Z.leb_le. Qed.

Lemma Z_ltb_true (a b : Z) : num_ltb a b = true <-> a < b.
Proof. apply Z.ltb_lt. Qed.

Lemma Q_leb_true (a b : Q) : num_leb a b = true <-> (a <= b)%Q.
Proof. apply Qle_bool_iff. Qed.

Lemma Q_ltb_true (a b : Q) : num_ltb a b = true <-> (a < b)%Q.
Proof.
  simpl. rewrite negb_true_iff. split.
  - intros E. apply Qnot_le_lt. intros Hle. apply Qle_bool_iff in Hle. congruence.
  - intros Hlt. apply not_true_iff_false. rewrite Qle_bool_iff.
    apply Qlt_not_le. exact Hlt.
Qed.

Lemma Q_of_int_le (a b : Z) : a <= b -> @num_leb Q _ (num_of_int a) (num_of_int b) = true.
Proof. intros Hab. rewrite Q_of_int_leb. apply Z.leb_le. exact Hab. Qed.

(** Instantiates the order laws of a generic lemma at [Z] or [Q]. *)
Ltac inst_laws P :=
  repeat first
    [ specialize (P Z_leb_refl) | specialize (P Z_ltb_negb_leb)
    | specialize (P Z_leb_total) | specialize (P Z_leb_trans)
    | specialize (P Q_leb_refl) | specialize (P Q_ltb_negb_leb)
    | specialize (P Q_leb_total) | specialize (P Q_leb_trans) ].

(** Rewrites the boolean comparisons of [Z] and [Q] into propositions. *)
Ltac num_props :=
  repeat match goal with
  | H : context [@num_leb Z _ _ _ = true] |- _ => rewrite Z_leb_true in H
  | H : context [@num_ltb Z _ _ _ = true] |- _ => rewrite Z_ltb_true in H
  | H : context [@num_leb Q _ _ _ = true] |- _ => rewrite Q_leb_true in H
  | H : context [@num_ltb Q _ _ _ = true] |- _ => rewrite Q_ltb_true in H
  | |- context [@num_leb Z _ _ _ = true] => rewrite Z_leb_true
  | |- context [@num_ltb Z _ _ _ = true] => rewrite Z_ltb_true
  | |- context [@num_leb Q _ _ _ = true] => rewrite Q_leb_true
  | |- context [@num_ltb Q _ _ _ = true] => rewrite Q_ltb_true
  end.

(** ** Integral and floating-point element types: order, arithmetic, rounding *)

(** The order of [SFcompare] on non-NaN floats is the lexicographic order
    of a key: its class (negative infinity, negative finite, zero,
    positive finite, positive infinity), then exponent and mantissa (with
    the sign reversed for negative values). *)
Definition sf_key (x : spec_float) : Z * Z * Z :=
  match x with
  | S754_infinity true => (0, 0, 0)
  | S754_finite true m e => (1, - e, - Zpos m)
  | S754_zero _ => (2, 0, 0)
  | S754_finite false m e => (3, e, Zpos m)
  | S754_infinity false => (4, 0, 0)
  | S754_nan => (0, 0, 0)
  end.

Definition lex_le (a b : Z * Z * Z) : Prop :=
  let '(a1, a2, a3) := a in let '(b1, b2, b3) := b in
  a1 < b1 \/ (a1 = b1 /\ (a2 < b2 \/ (a2 = b2 /\ a3 <= b3))).

Definition lex_lt (a b : Z * Z * Z) : Prop :=
  let '(a1, a2, a3) := a in let '(b1, b2, b3) := b in
  a1 < b1 \/ (a1 = b1 /\ (a2 < b2 \/ (a2 = b2 /\ a3 < b3))).

Definition not_nan (x : spec_float) : Prop := F32.is_nan x = false.

Lemma pos_compare_cont_Z (m1 m2 : positive) :
  Pos.compare_cont Eq m1 m2 = Z.compare (Zpos m1) (Zpos m2).
Proof. reflexivity. Qed.

Lemma SFcompare_lex (x y : spec_float) :
  not_nan x -> not_nan y ->
  (SFcompare x y = Some Lt <-> lex_lt (sf_key x) (sf_key y)) /\
  (SFcompare x y = Some Eq <-> (lex_le (sf_key x) (sf_key y) /\ lex_le (sf_key y) (sf_key x))) /\
  (SFcompare x y = Some Gt <-> lex_lt (sf_key y) (sf_key x)).
Proof.
  unfold not_nan.
  intros Hx Hy.
  destruct x as [sx|sx| |sx mx ex]; [| |discriminate|];
  (destruct y as [sy|sy| |sy my ey]; [| |discriminate|]);
  try destruct sx; try destruct sy; simpl;
  rewrite ?pos_compare_cont_Z;
  repeat match goal with
  | |- context [Z.compare ?a ?b] => destruct (Z.compare_spec a b)
  end; simpl;
  repeat split; intros; try discriminate; try lia.
Qed.

Lemma SFcompare_some (x y : spec_float) :
  not_nan x -> not_nan y -> SFcompare x y <> None.
Proof.
  unfold not_nan. intros Hx Hy.
  destruct x as [sx|sx| |sx mx ex], y as [sy|sy| |sy my ey]; try discriminate;
    try destruct sx; try destruct sy; simpl; try discriminate;
    destruct (Z.compare ex ey); discriminate.
Qed.

Lemma SFleb_lex (x y : spec_float) :
  not_nan x -> not_nan y -> (SFleb x y = true <-> lex_le (sf_key x) (sf_key y)).
Proof.
  intros Hx Hy. destruct (SFcompare_lex x y Hx Hy) as [L [E G]].
  unfold SFleb. destruct (sf_key x) as [[a1 a2] a3] eqn:Kx, (sf_key y) as [[b1 b2] b3] eqn:Ky.
  simpl in *. pose proof (SFcompare_some x y Hx Hy) as NS.
  destruct (SFcompare x y) as [[| |]|].
  - split; [intros _; destruct (proj1 E eq_refl); lia|reflexivity].
  - split; [intros _; pose proof (proj1 L eq_refl); lia|reflexivity].
  - split; [discriminate|]. pose proof (proj1 G eq_refl). lia.
  - congruence.
Qed.

Lemma SFltb_lex (x y : spec_float) :
  not_nan x -> not_nan y -> (SFltb x y = true <-> lex_lt (sf_key x) (sf_key y)).
Proof.
  intros Hx Hy. destruct (SFcompare_lex x y Hx Hy) as [L [E G]].
  unfold SFltb. destruct (sf_key x) as [[a1 a2] a3] eqn:Kx, (sf_key y) as [[b1 b2] b3] eqn:Ky.
  simpl in *. pose proof (SFcompare_some x y Hx Hy) as NS.
  destruct (SFcompare x y) as [[| |]|].
  - split; [discriminate|]. destruct (proj1 E eq_refl). lia.
  - split; [intros _; pose proof (proj1 L eq_refl); lia|reflexivity].
  - split; [discriminate|]. pose proof (proj1 G eq_refl). lia.
  - congruence.
Qed.

Lemma SFleb_not_nan (x y : spec_float) :
  SFleb x y = true -> not_nan x /\ not_nan y.
Proof. unfold not_nan. destruct x, y; simpl; intros E; try discriminate; split; reflexivity. Qed.

Lemma SFltb_nan_l (y : spec_float) : SFltb S754_nan y = false.
Proof. reflexivity. Qed.

Lemma SFltb_nan_r (x : spec_float) : SFltb x S754_nan = false.
Proof. destruct x; reflexivity. Qed.

(** [std::clamp] over a floating-point type, for a non-NaN value and
    bounds with [lo <= hi]. *)
Lemma binary_clamp (prec emax : Z) (v lo hi : binary prec emax) :
  SFleb (fp lo) (fp hi) = true -> not_nan (fp v) ->
  let r := std_clamp v lo hi in
  (SFleb (fp lo) (fp r) = true /\ SFleb (fp r) (fp hi) = true) /\
  (SFltb (fp v) (fp lo) = true -> r = lo) /\
  (SFltb (fp hi) (fp v) = true -> r = hi) /\
  (SFleb (fp lo) (fp v) = true -> SFleb (fp v) (fp hi) = true -> r = v).
Proof.
  intros Hb Hv. cbn zeta.
  destruct (SFleb_not_nan _ _ Hb) as [Hl Hh].
  pose proof (SFleb_lex _ _ Hl Hh) as LH.
  pose proof (SFleb_lex _ _ Hl Hv) as LV. pose proof (SFleb_lex _ _ Hv Hh) as VH.
  pose proof (SFleb_lex _ _ Hl Hl) as LL. pose proof (SFleb_lex _ _ Hh Hh) as HH.
  pose proof (SFltb_lex _ _ Hv Hl) as VL. pose proof (SFltb_lex _ _ Hh Hv) as HV.
  unfold std_clamp; simpl num_ltb.
  destruct (sf_key (fp v)) as [[v1 v2] v3], (sf_key (fp lo)) as [[l1 l2] l3],
    (sf_key (fp hi)) as [[h1 h2] h3]. unfold lex_le, lex_lt in *.
  pose proof (proj1 LH Hb) as Hlh.
  destruct (SFltb (fp v) (fp lo)) eqn:E1.
  - split; [split; [apply LL; lia|exact Hb]|].
    split; [reflexivity|]. split; [intros E2; apply proj1 in HV; specialize (HV E2);
      apply proj1 in VL; specialize (VL eq_refl); lia|].
    intros E2 E3. apply proj1 in VL. specialize (VL eq_refl). apply LV in E2. lia.
  - destruct (SFltb (fp hi) (fp v)) eqn:E2.
    + split; [split; [exact Hb|apply HH; lia]|].
      split; [discriminate|]. split; [reflexivity|].
      intros E3 E4. apply proj1 in HV. specialize (HV eq_refl). apply VH in E4. lia.
    + split; [split|].
      * apply LV. assert (~ (v1 < l1 \/ v1 = l1 /\ (v2 < l2 \/ v2 = l2 /\ v3 < l3)))
          by (intros C; apply VL in C; discriminate). lia.
      * apply VH. assert (~ (h1 < v1 \/ h1 = v1 /\ (h2 < v2 \/ h2 = v2 /\ h3 < v3)))
          by (intros C; apply HV in C; discriminate). lia.
      * split; [discriminate|]. split; [discriminate|]. reflexivity.
Qed.

Lemma modulo_Z_spec (x L : Z) :
  0 < L -> 0 <= modulo_Z x L < L /\ x = L * (x / L) + modulo_Z x L.
Proof.
  intros HL. unfold modulo_Z. split.
  - apply Z.mod_pos_bound. exact HL.
  - apply Z.div_mod. lia.
Qed.

Lemma int_fits_between (sgn : bool) (w a b x : Z) :
  int_fits sgn w a -> int_fits sgn w b -> a <= x <= b -> int_fits sgn w x.
Proof. unfold int_fits. destruct sgn; lia. Qed.

Lemma int_wrap_id (sgn : bool) (w x : Z) :
  0 < w -> int_fits sgn w x -> int_wrap sgn w x = x.
Proof.
  unfold int_fits, int_wrap. intros Hw Hx.
  assert (P : 2 ^ w = 2 * 2 ^ (w - 1)).
  { rewrite <- Z.pow_succ_r by lia. f_equal. lia. }
  destruct sgn.
  - rewrite Z.mod_small by lia. lia.
  - apply Z.mod_small. lia.
Qed.

Lemma int_fits_small (sgn : bool) (w : Z) :
  2 <= w -> int_fits sgn w 0 /\ int_fits sgn w 1.
Proof.
  unfold int_fits. intros Hw.
  assert (P : 2 <= 2 ^ (w - 1)).
  { change 2 with (2 ^ 1) at 1. apply Z.pow_le_mono_r; lia. }
  assert (P' : 2 ^ w = 2 * 2 ^ (w - 1)).
  { rewrite <- Z.pow_succ_r by lia. f_equal. lia. }
  destruct sgn; lia.
Qed.

Lemma I_leb_refl {sgn : bool} {w : Z} (x : integer sgn w) : num_leb x x = true.
Proof. apply Z.leb_refl. Qed.

Lemma I_ltb_negb_leb {sgn : bool} {w : Z} (x y : integer sgn w) :
  num_ltb x y = negb (num_leb y x).
Proof. simpl. destruct (Z.ltb_spec (zv x) (zv y)), (Z.leb_spec (zv y) (zv x)); lia. Qed.

Lemma I_leb_total {sgn : bool} {w : Z} (x y : integer sgn w) :
  num_leb x y = false -> num_leb y x = true.
Proof. simpl. destruct (Z.leb_spec (zv x) (zv y)), (Z.leb_spec (zv y) (zv x)); lia. Qed.

Lemma I_leb_trans {sgn : bool} {w : Z} (x y z : integer sgn w) :
  num_leb x y = true -> num_leb y z = true -> num_leb x z = true.
Proof. simpl. rewrite !Z.leb_le. lia. Qed.

Lemma I_leb_true {sgn : bool} {w : Z} (a b : integer sgn w) :
  num_leb a b = true <-> zv a <= zv b.
Proof. apply Z.leb_le. Qed.

Lemma I_ltb_true {sgn : bool} {w : Z} (a b : integer sgn w) :
  num_ltb a b = true <-> zv a < zv b.
Proof. apply Z.ltb_lt. Qed.

Lemma I_of_int (sgn : bool) (w z : Z) :
  0 < w -> int_fits sgn w z -> @num_of_int (integer sgn w) _ z = Integer z.
Proof. intros Hw Hz. simpl. rewrite int_wrap_id by assumption. reflexivity. Qed.

Lemma integer_eta {sgn : bool} {w : Z} (a b : integer sgn w) : zv a = zv b -> a = b.
Proof. destruct a, b. simpl. intros ->. reflexivity. Qed.

(** Wrap mode over an integral type, runtime variant, when [length] and
    [v - min] are values of [T]. *)
Lemma db_wrap_int (sgn : bool) (w : Z) (s : DynamicallyBounded (integer sgn w) true)
  (v : integer sgn w) :
  0 < w -> int_fits sgn w (zv (min_ s)) -> int_fits sgn w (zv (max_ s)) ->
  zv (min_ s) <= zv (max_ s) ->
  int_fits sgn w (zv (max_ s) - zv (min_ s) + 1) -> int_fits sgn w (zv v - zv (min_ s)) ->
  let L := zv (max_ s) - zv (min_ s) + 1 in
  let r := zv (db_value_ (db_assign s v)) in
  zv (min_ s) <= r <= zv (max_ s) /\ (exists k : Z, r = zv v + k * L) /\
  ((zv v < zv (min_ s) \/ zv (max_ s) < zv v) -> r = zv (min_ s) + modulo_Z (zv v - zv (min_ s)) L).
Proof.
  intros Hw Hmin Hmax Hle HL Hv L. cbn zeta.
  assert (P : 0 < 2 ^ (w - 1)) by (apply Z.pow_pos_nonneg; lia).
  assert (P' : 2 ^ w = 2 * 2 ^ (w - 1)) by (rewrite <- Z.pow_succ_r by lia; f_equal; lia).
  unfold db_assign, db_min, db_max.
  destruct (num_ltb v (min_ s) || num_ltb (max_ s) v) eqn:E; simpl.
  - rewrite (int_wrap_id sgn w 1) by (unfold int_fits in *; destruct sgn; lia).
    rewrite (int_wrap_id sgn w (zv (max_ s) - zv (min_ s))) by (unfold int_fits in *; destruct sgn; lia).
    rewrite (int_wrap_id sgn w (zv (max_ s) - zv (min_ s) + 1)) by assumption.
    rewrite (int_wrap_id sgn w (zv v - zv (min_ s))) by assumption.
    fold L.
    pose proof (modulo_Z_spec (zv v - zv (min_ s)) L) as [[M1 M2] M3]; [unfold L; lia|].
    rewrite (int_wrap_id sgn w (zv (min_ s) + modulo_Z (zv v - zv (min_ s)) L)) by
      (first [exact Hw | apply (int_fits_between sgn w (zv (min_ s)) (zv (max_ s))); [exact Hmin|exact Hmax|unfold L in *; lia]]).
    set (m := modulo_Z (zv v - zv (min_ s)) L) in *.
    set (q := (zv v - zv (min_ s)) / L) in *.
    split; [unfold L in *; lia|]. split; [exists (- q); lia|]. reflexivity.
  - apply orb_false_iff in E as [E1 E2]. simpl in E1, E2.
    apply Z.ltb_ge in E1, E2.
    split; [lia|]. split; [exists 0; lia|]. intros; lia.
Qed.

Ltac inst_int_laws P :=
  repeat first
    [ specialize (P I_leb_refl) | specialize (P I_ltb_negb_leb)
    | specialize (P I_leb_total) | specialize (P I_leb_trans) ].

Lemma sb_assign_nan (prec emax min max : Z)
  (s : StaticallyBounded (binary prec emax) min max true) :
  fp (sb_value_ (sb_assign s (Binary S754_nan))) = S754_nan.
Proof. unfold sb_assign. simpl. rewrite SFltb_nan_r. reflexivity. Qed.

Lemma db_assign_nan (prec emax : Z) (s : DynamicallyBounded (binary prec emax) true) :
  fp (db_value_ (db_assign s (Binary S754_nan))) = S754_nan.
Proof. unfold db_assign. simpl. rewrite SFltb_nan_r. reflexivity. Qed.

Lemma sb_wrap_int (sgn : bool) (w min max : Z)
  (s : StaticallyBounded (integer sgn w) min max true) (v : integer sgn w) :
  0 < w -> int_fits sgn w min -> int_fits sgn w max -> min <= max ->
  int_fits sgn w (max - min + 1) -> int_fits sgn w (zv v - min) ->
  let L := max - min + 1 in
  let r := zv (sb_value_ (sb_assign s v)) in
  min <= r <= max /\ (exists k : Z, r = zv v + k * L) /\
  ((zv v < min \/ max < zv v) -> r = min + modulo_Z (zv v - min) L).
Proof.
  intros Hw Hmin Hmax Hle HL Hv L. cbn zeta.
  assert (P : 0 < 2 ^ (w - 1)) by (apply Z.pow_pos_nonneg; lia).
  assert (P' : 2 ^ w = 2 * 2 ^ (w - 1)) by (rewrite <- Z.pow_succ_r by lia; f_equal; lia).
  unfold sb_assign. simpl num_of_int.
  rewrite (int_wrap_id sgn w min), (int_wrap_id sgn w max) by assumption.
  destruct (num_ltb v (Integer min) || num_ltb (Integer max) v) eqn:E; simpl.
  - rewrite (int_wrap_id sgn w 1) by (unfold int_fits in *; destruct sgn; lia).
    rewrite (int_wrap_id sgn w (max - min)) by (unfold int_fits in *; destruct sgn; lia).
    rewrite (int_wrap_id sgn w (max - min + 1)) by assumption.
    rewrite (int_wrap_id sgn w (zv v - min)) by assumption.
    fold L.
    pose proof (modulo_Z_spec (zv v - min) L) as [[M1 M2] M3]; [unfold L; lia|].
    rewrite (int_wrap_id sgn w (min + modulo_Z (zv v - min) L)) by
      (first [exact Hw | apply (int_fits_between sgn w min max);
                         [exact Hmin|exact Hmax|unfold L in *; lia]]).
    set (m := modulo_Z (zv v - min) L) in *.
    set (q := (zv v - min) / L) in *.
    split; [unfold L in *; lia|]. split; [exists (- q); lia|]. reflexivity.
  - apply orb_false_iff in E as [E1 E2]. simpl in E1, E2.
    apply Z.ltb_ge in E1, E2.
    split; [lia|]. split; [exists 0; lia|]. intros; lia.
Qed.

(** Every assignment over an integral type stores a value in the range,
    in either mode (wrap mode needs [length] to be a value of [T]). *)
Lemma sb_assign_range_int (sgn : bool) (w min max : Z) (wrap : bool)
  (s : StaticallyBounded (integer sgn w) min max wrap) (v : integer sgn w) :
  0 < w -> int_fits sgn w min -> int_fits sgn w max -> min <= max ->
  (wrap = true -> int_fits sgn w (max - min + 1)) ->
  min <= zv (sb_value_ (sb_assign s v)) <= max.
Proof.
  intros Hw Hmin Hmax Hle HL.
  assert (P : 0 < 2 ^ (w - 1)) by (apply Z.pow_pos_nonneg; lia).
  assert (P' : 2 ^ w = 2 * 2 ^ (w - 1)) by (rewrite <- Z.pow_succ_r by lia; f_equal; lia).
  unfold sb_assign. simpl num_of_int.
  rewrite (int_wrap_id sgn w min), (int_wrap_id sgn w max) by assumption.
  destruct wrap.
  - specialize (HL eq_refl).
    destruct (num_ltb v (Integer min) || num_ltb (Integer max) v) eqn:E; simpl.
    + rewrite (int_wrap_id sgn w 1) by (unfold int_fits in *; destruct sgn; lia).
      rewrite (int_wrap_id sgn w (max - min)) by (unfold int_fits in *; destruct sgn; lia).
      rewrite (int_wrap_id sgn w (max - min + 1)) by assumption.
      pose proof (modulo_Z_spec (int_wrap sgn w (zv v - min)) (max - min + 1)) as [M _]; [lia|].
      rewrite int_wrap_id; [lia|exact Hw|].
      apply (int_fits_between sgn w min max); [exact Hmin|exact Hmax|lia].
    + apply orb_false_iff in E as [E1 E2]. simpl in E1, E2.
      apply Z.ltb_ge in E1, E2. lia.
  - unfold std_clamp. simpl.
    destruct (Z.ltb_spec (zv v) min); [simpl; lia|].
    destruct (Z.ltb_spec max (zv v)); simpl; lia.
Qed.

Lemma db_assign_range_int (sgn : bool) (w : Z) (wrap : bool)
  (s : DynamicallyBounded (integer sgn w) wrap) (v : integer sgn w) :
  0 < w -> int_fits sgn w (zv (min_ s)) -> int_fits sgn w (zv (max_ s)) ->
  zv (min_ s) <= zv (max_ s) ->
  (wrap = true -> int_fits sgn w (zv (max_ s) - zv (min_ s) + 1)) ->
  zv (min_ s) <= zv (db_value_ (db_assign s v)) <= zv (max_ s).
Proof.
  intros Hw Hmin Hmax Hle HL.
  assert (P : 0 < 2 ^ (w - 1)) by (apply Z.pow_pos_nonneg; lia).
  assert (P' : 2 ^ w = 2 * 2 ^ (w - 1)) by (rewrite <- Z.pow_succ_r by lia; f_equal; lia).
  unfold db_assign, db_min, db_max.
  destruct wrap.
  - specialize (HL eq_refl).
    destruct (num_ltb v (min_ s) || num_ltb (max_ s) v) eqn:E; simpl.
    + rewrite (int_wrap_id sgn w 1) by (unfold int_fits in *; destruct sgn; lia).
      rewrite (int_wrap_id sgn w (zv (max_ s) - zv (min_ s))) by (unfold int_fits in *; destruct sgn; lia).
      rewrite (int_wrap_id sgn w (zv (max_ s) - zv (min_ s) + 1)) by assumption.
      pose proof (modulo_Z_spec (int_wrap sgn w (zv v - zv (min_ s))) (zv (max_ s) - zv (min_ s) + 1))
        as [M _]; [lia|].
      rewrite int_wrap_id; [lia|exact Hw|].
      apply (int_fits_between sgn w (zv (min_ s)) (zv (max_ s))); [exact Hmin|exact Hmax|lia].
    + apply orb_false_iff in E as [E1 E2]. simpl in E1, E2.
      apply Z.ltb_ge in E1, E2. lia.
  - unfold std_clamp. simpl.
    destruct (Z.ltb_spec (zv v) (zv (min_ s))); [simpl; lia|].
    destruct (Z.ltb_spec (zv (max_ s)) (zv v)); simpl; lia.
Qed.

Lemma f32_div_self (m : positive) (e : Z) :
  F32.div (S754_finite false m e) (S754_finite false m e) = F32.one.
Proof.
  unfold F32.div, SFdiv, SFdiv_core_binary.
  rewrite !Z.sub_diag.
  change (Z.min (fexp F32.prec F32.emax 0) 0) with (-24).
  change (Z.sub 0 (-24)) with 24.
  assert (D : Z.div_eucl (Z.shiftl (Zpos m) 24) (Zpos m) = (2 ^ 24, 0)).
  { rewrite Z.shiftl_mul_pow2 by lia.
    pose proof (Z.div_mul (2 ^ 24) (Zpos m)) as A.
    pose proof (Z.mod_mul (2 ^ 24) (Zpos m)) as B.
    rewrite Z.mul_comm in A, B.
    unfold Z.div in A. unfold Z.modulo in B.
    destruct (Z.div_eucl (Zpos m * 2 ^ 24) (Zpos m)). simpl in A, B.
    rewrite A, B; [reflexivity|lia|lia]. }
  cbv match.
  change (IntDef.Z.div_eucl (IntDef.Z.shiftl (Zpos m) 24) (Zpos m))
    with (Z.div_eucl (Z.shiftl (Zpos m) 24) (Zpos m)).
  rewrite D.
  assert (Loc : new_location (Zpos m) 0 = loc_Exact).
  { unfold new_location. destruct (Z.even (Zpos m)); reflexivity. }
  rewrite Loc. reflexivity.
Qed.

Lemma f32_div_self_pos (f : spec_float) :
  F32.is_finite_pos f = true -> F32.div f f = F32.one.
Proof.
  destruct f as [| | | [] m e]; simpl; intros E; try discriminate.
  apply f32_div_self.
Qed.

(** A zero divided by a float greater than zero is the same zero. *)
Lemma f32_zero_div_gt0 (s : bool) (d : spec_float) :
  F32.gt0 d = true -> F32.div (S754_zero s) d = S754_zero s.
Proof.
  destruct d as [[]|[]| |[] m e]; simpl; intros E; try discriminate;
    destruct s; reflexivity.
Qed.

Lemma int_fits_zero (sgn : bool) (w : Z) : 0 < w -> int_fits sgn w 0.
Proof.
  unfold int_fits. intros Hw.
  assert (P : 0 < 2 ^ (w - 1)) by (apply Z.pow_pos_nonneg; lia).
  assert (P' : 0 < 2 ^ w) by (apply Z.pow_pos_nonneg; lia).
  destruct sgn; lia.
Qed.

(** [a == b] on two floats: the same float, or two zeros. *)
Lemma SFeqb_cases (a b : spec_float) :
  SFeqb a b = true -> a = b \/ (exists sa sb, a = S754_zero sa /\ b = S754_zero sb).
Proof.
  unfold SFeqb.
  destruct a as [sa|sa| |sa ma ea], b as [sb|sb| |sb mb eb];
    try destruct sa; try destruct sb; simpl; intros E; try discriminate;
    try (right; eexists; eexists; split; reflexivity); try (left; reflexivity).
  all: destruct (Z.compare_spec ea eb); try discriminate; subst;
    rewrite pos_compare_cont_Z in E;
    destruct (Z.compare_spec (Zpos ma) (Zpos mb)) as [Em| |]; try discriminate;
    injection Em as ->; left; reflexivity.
Qed.

(** [v - a] with [v == a] and [a] finite (zero included) is a zero. *)
Lemma SFsub_eq_zero (prec emax : Z) (v a : spec_float) :
  is_finite a = true -> SFeqb v a = true -> exists s, SFsub prec emax v a = S754_zero s.
Proof.
  intros Ha E. destruct (SFeqb_cases v a E) as [->|[sv [sa [-> ->]]]].
  - destruct a as [sa|sa| |sa ma ea]; try discriminate.
    + destruct sa; eexists; reflexivity.
    + exists false. unfold SFsub. rewrite Z.sub_diag. reflexivity.
  - destruct sv, sa; eexists; reflexivity.
Qed.

(** [a - c] and [b - c] with [a == b] are the same float, unless the
    difference is a zero (of either sign), an infinity or NaN. *)
Lemma SFsub_eq_l (prec emax : Z) (a b c : spec_float) :
  SFeqb a b = true -> F32.is_finite_pos (to_float (SFsub prec emax b c)) = true ->
  SFsub prec emax a c = SFsub prec emax b c.
Proof.
  intros E. destruct (SFeqb_cases a b E) as [->|[sa [sb [-> ->]]]]; [reflexivity|].
  destruct c as [sc|sc| |sc mc ec]; destruct sa, sb; try destruct sc;
    simpl; intros H; try discriminate; reflexivity.
Qed.

(** ** C7: clamp mode *)

(** C7 (counterexample). Over [float], a NaN assigned in clamp mode is
    stored as it is: [std::clamp(NaN, lo, hi)] returns NaN, since both
    [NaN < lo] and [hi < NaN] are false, and NaN is not [>= min]. Shown for
    [StaticallyBounded<float, 0, 1, false>] and for a
    [DynamicallyBounded<float, false>] with bounds [0] and [1]. *)
Lemma assign_clamp_nan_counterexample :
  (let s := @sb_make float _ 0 1 false (num_of_int 0) in
   let r := fp (sb_value_ (sb_assign s (Binary S754_nan))) in
   r = S754_nan /\ SFleb (binary_of_Z 24 128 0) r = false) /\
  (let s := @db_make float _ false (num_of_int 0) (num_of_int 0) (num_of_int 1) in
   let r := fp (db_value_ (db_assign s (Binary S754_nan))) in
   r = S754_nan /\ SFleb (fp (min_ s)) r = false).
Proof. split; vm_compute; split; reflexivity. Qed.

(** C7 (amended). In clamp mode, for either variant, the stored value lies
    in [[min, max]], and a value in [[min, max]] is stored exactly:
    - for an integral [T] of any width, signed or unsigned, whose range
      [min <= max] is made of values of [T];
    - for a floating-point [T], when the assigned value is not NaN and
      [T(min) <= T(max)].
    [StaticallyBounded<int, 0, 127>] stores 0 for an assignment of -5. *)
Theorem assign_clamp_correct :
  (forall (sgn : bool) (w min max : Z) (s : StaticallyBounded (integer sgn w) min max false)
          (v : integer sgn w),
     0 < w -> int_fits sgn w min -> int_fits sgn w max -> min <= max ->
     let r := sb_value_ (sb_assign s v) in
     (min <= zv r <= max) /\ (min <= zv v <= max -> r = v)) /\
  (forall (sgn : bool) (w : Z) (s : DynamicallyBounded (integer sgn w) false) (v : integer sgn w),
     zv (min_ s) <= zv (max_ s) ->
     let r := db_value_ (db_assign s v) in
     (zv (min_ s) <= zv r <= zv (max_ s)) /\ (zv (min_ s) <= zv v <= zv (max_ s) -> r = v)) /\
  (forall (prec emax min max : Z) (s : StaticallyBounded (binary prec emax) min max false)
          (v : binary prec emax),
     SFleb (binary_of_Z prec emax min) (binary_of_Z prec emax max) = true ->
     F32.is_nan (fp v) = false ->
     let r := fp (sb_value_ (sb_assign s v)) in
     (SFleb (binary_of_Z prec emax min) r = true /\ SFleb r (binary_of_Z prec emax max) = true) /\
     (SFleb (binary_of_Z prec emax min) (fp v) = true ->
      SFleb (fp v) (binary_of_Z prec emax max) = true -> r = fp v)) /\
  (forall (prec emax : Z) (s : DynamicallyBounded (binary prec emax) false) (v : binary prec emax),
     SFleb (fp (min_ s)) (fp (max_ s)) = true -> F32.is_nan (fp v) = false ->
     let r := fp (db_value_ (db_assign s v)) in
     (SFleb (fp (min_ s)) r = true /\ SFleb r (fp (max_ s)) = true) /\
     (SFleb (fp (min_ s)) (fp v) = true -> SFleb (fp v) (fp (max_ s)) = true -> r = fp v)) /\
  zv (sb_value_ (sb_assign (@sb_make int _ 0 127 false (Integer 0)) (Integer (-5)))) = 0.
Proof.
  split; [|split; [|split; [|split]]].
  - intros sgn w min max s v Hw Hmin Hmax Hle. cbn zeta.
    pose proof (@sb_assign_clamp (integer sgn w) _) as P. inst_int_laws P.
    specialize (P min max s v).
    rewrite !I_of_int in P by assumption. cbn zeta in P.
    destruct P as [[P1 P2] P3]; [apply Z.leb_le; exact Hle|].
    apply I_leb_true in P1, P2. cbn [zv] in P1, P2.
    split; [lia|]. intros [? ?]. apply P3; apply I_leb_true; cbn [zv]; lia.
  - intros sgn w s v Hle. cbn zeta.
    pose proof (@db_assign_clamp (integer sgn w) _) as P. inst_int_laws P.
    specialize (P s v). cbn zeta in P.
    destruct P as [[P1 P2] P3]; [apply Z.leb_le; exact Hle|].
    apply I_leb_true in P1, P2.
    split; [lia|]. intros [? ?]. apply P3; apply I_leb_true; lia.
  - intros prec emax min max s v Hb Hv. cbn zeta. unfold sb_assign.
    destruct (binary_clamp prec emax v (Binary (binary_of_Z prec emax min)) (Binary (binary_of_Z prec emax max)) Hb Hv)
      as [R1 [_ [_ R4]]].
    split; [exact R1|]. intros H1 H2. simpl. rewrite (R4 H1 H2). reflexivity.
  - intros prec emax s v Hb Hv. cbn zeta. unfold db_assign.
    destruct (binary_clamp prec emax v (min_ s) (max_ s) Hb Hv) as [R1 [_ [_ R4]]].
    split; [exact R1|]. intros H1 H2. simpl. rewrite (R4 H1 H2). reflexivity.
  - reflexivity.
Qed.

(** ** C8: wrap mode, in-range values pass through *)

(** C8. In wrap mode, for either variant, assigning a [v] with
    [min <= v <= max] stores [v] itself through the pass-through branch
    (the bounds of a runtime object are untouched); so assigning the stored
    value of an object whose value is in range leaves the object as it
    was. *)
Theorem assign_wrap_in_range_identity :
  (forall (min max : Z) (s : StaticallyBounded Z min max true) (v : Z),
     min <= v <= max -> sb_assign s v = mkStaticallyBounded v) /\
  (forall (min max : Z) (s : StaticallyBounded Q min max true) (v : Q),
     (inject_Z min <= v <= inject_Z max)%Q -> sb_assign s v = mkStaticallyBounded v) /\
  (forall (s : DynamicallyBounded Z true) (v : Z),
     min_ s <= v <= max_ s -> db_assign s v = mkDynamicallyBounded v (min_ s) (max_ s)) /\
  (forall (s : DynamicallyBounded Q true) (v : Q),
     (min_ s <= v <= max_ s)%Q -> db_assign s v = mkDynamicallyBounded v (min_ s) (max_ s)) /\
  (forall (min max : Z) (s : StaticallyBounded Z min max true),
     min <= sb_value_ s <= max -> sb_assign s (sb_value_ s) = s) /\
  (forall (min max : Z) (s : StaticallyBounded Q min max true),
     (inject_Z min <= sb_value_ s <= inject_Z max)%Q -> sb_assign s (sb_value_ s) = s) /\
  (forall (s : DynamicallyBounded Z true),
     min_ s <= db_value_ s <= max_ s -> db_assign s (db_value_ s) = s) /\
  (forall (s : DynamicallyBounded Q true),
     (min_ s <= db_value_ s <= max_ s)%Q -> db_assign s (db_value_ s) = s).
Proof.
  assert (SZ : forall (min max : Z) (s : StaticallyBounded Z min max true) (v : Z),
     min <= v <= max -> sb_assign s v = mkStaticallyBounded v).
  { intros min max s v [H1 H2]. apply (sb_assign_wrap_in_range Z_ltb_negb_leb);
      apply Z.leb_le; assumption. }
  assert (SQ : forall (min max : Z) (s : StaticallyBounded Q min max true) (v : Q),
     (inject_Z min <= v <= inject_Z max)%Q -> sb_assign s v = mkStaticallyBounded v).
  { intros min max s v [H1 H2]. apply (sb_assign_wrap_in_range Q_ltb_negb_leb);
      apply Qle_bool_iff; assumption. }
  assert (DZ : forall (s : DynamicallyBounded Z true) (v : Z),
     min_ s <= v <= max_ s -> db_assign s v = mkDynamicallyBounded v (min_ s) (max_ s)).
  { intros s v [H1 H2]. apply (db_assign_wrap_in_range Z_ltb_negb_leb);
      apply Z.leb_le; assumption. }
  assert (DQ : forall (s : DynamicallyBounded Q true) (v : Q),
     (min_ s <= v <= max_ s)%Q -> db_assign s v = mkDynamicallyBounded v (min_ s) (max_ s)).
  { intros s v [H1 H2]. apply (db_assign_wrap_in_range Q_ltb_negb_leb);
      apply Qle_bool_iff; assumption. }
  split; [exact SZ|]. split; [exact SQ|]. split; [exact DZ|]. split; [exact DQ|].
  split; [intros min max [x] Hx; apply SZ; exact Hx|].
  split; [intros min max [x] Hx; apply SQ; exact Hx|].
  split; [intros [x lo hi] Hx; apply DZ; exact Hx|].
  intros [x lo hi] Hx; apply DQ; exact Hx.
Qed.

(** ** C3: construction clamps *)

(** C3 (counterexample). Over [float], constructing with a NaN stores NaN,
    in either mode and for either variant: [std::clamp] returns NaN, which
    is not [>= min]. Shown for [StaticallyBounded<float, 0, 1, true>] and
    a [DynamicallyBounded<float, true>] with bounds [0] and [1]. *)
Lemma construction_nan_counterexample :
  (let r := fp (sb_value_ (@sb_make float _ 0 1 true (Binary S754_nan))) in
   r = S754_nan /\ SFleb (binary_of_Z 24 128 0) r = false) /\
  (let r := fp (db_value_ (@db_make float _ true (Binary S754_nan) (num_of_int 0) (num_of_int 1))) in
   r = S754_nan /\ SFleb (binary_of_Z 24 128 0) r = false).
Proof. split; vm_compute; split; reflexivity. Qed.

(** C3 (amended). Construction of either variant clamps the initial value,
    even in wrap mode: the value lies in [[min, max]], a value below [min]
    stores [min], a value above [max] stores [max] (never a wrapped value),
    and a value in the range is stored as it is. This holds for an integral
    [T] of any width, signed or unsigned, with [min <= max] values of [T],
    and for a floating-point [T] when the initial value is not NaN and
    [T(min) <= T(max)]. [StaticallyBounded<int, 0, 11, true>] built with 15
    holds 11, where an assignment of 15 stores 3. *)
Theorem construction_always_clamps :
  (forall (sgn : bool) (w min max : Z) (wrap : bool) (v : integer sgn w),
     0 < w -> int_fits sgn w min -> int_fits sgn w max -> min <= max ->
     let r := sb_value_ (@sb_make (integer sgn w) _ min max wrap v) in
     (min <= zv r <= max) /\ (zv v < min -> zv r = min) /\ (max < zv v -> zv r = max) /\
     (min <= zv v <= max -> r = v)) /\
  (forall (sgn : bool) (w : Z) (wrap : bool) (v lo hi : integer sgn w),
     zv lo <= zv hi ->
     let r := db_value_ (@db_make (integer sgn w) _ wrap v lo hi) in
     (zv lo <= zv r <= zv hi) /\ (zv v < zv lo -> r = lo) /\ (zv hi < zv v -> r = hi) /\
     (zv lo <= zv v <= zv hi -> r = v)) /\
  (forall (prec emax min max : Z) (wrap : bool) (v : binary prec emax),
     SFleb (binary_of_Z prec emax min) (binary_of_Z prec emax max) = true ->
     F32.is_nan (fp v) = false ->
     let r := fp (sb_value_ (@sb_make (binary prec emax) _ min max wrap v)) in
     (SFleb (binary_of_Z prec emax min) r = true /\ SFleb r (binary_of_Z prec emax max) = true) /\
     (SFltb (fp v) (binary_of_Z prec emax min) = true -> r = binary_of_Z prec emax min) /\
     (SFltb (binary_of_Z prec emax max) (fp v) = true -> r = binary_of_Z prec emax max) /\
     (SFleb (binary_of_Z prec emax min) (fp v) = true ->
      SFleb (fp v) (binary_of_Z prec emax max) = true -> r = fp v)) /\
  (forall (prec emax : Z) (wrap : bool) (v lo hi : binary prec emax),
     SFleb (fp lo) (fp hi) = true -> F32.is_nan (fp v) = false ->
     let r := db_value_ (@db_make (binary prec emax) _ wrap v lo hi) in
     (SFleb (fp lo) (fp r) = true /\ SFleb (fp r) (fp hi) = true) /\
     (SFltb (fp v) (fp lo) = true -> r = lo) /\ (SFltb (fp hi) (fp v) = true -> r = hi) /\
     (SFleb (fp lo) (fp v) = true -> SFleb (fp v) (fp hi) = true -> r = v)) /\
  zv (sb_value_ (@sb_make int _ 0 11 true (Integer 15))) = 11 /\
  zv (sb_value_ (sb_assign (@sb_make int _ 0 11 true (Integer 5)) (Integer 15))) = 3 /\
  zv (sb_value_ (@sb_make int _ 0 127 false (Integer 200))) = 127.
Proof.
  split; [|split; [|split; [|split]]].
  - intros sgn w min max wrap v Hw Hmin Hmax Hle. cbn zeta.
    pose proof (@sb_make_clamp (integer sgn w) _) as P. inst_int_laws P.
    specialize (P min max wrap v).
    rewrite !I_of_int in P by assumption. cbn zeta in P.
    destruct P as [_ [[P1 P2] [P3 [P4 P5]]]]; [apply Z.leb_le; exact Hle|].
    rewrite !I_leb_true, !I_ltb_true in *. cbn [zv] in *.
    split; [lia|]. split; [intros H; rewrite P3 by exact H; reflexivity|].
    split; [intros H; rewrite P4 by exact H; reflexivity|]. intros [? ?]. apply P5; lia.
  - intros sgn w wrap v lo hi Hle. cbn zeta.
    pose proof (@db_make_clamp (integer sgn w) _) as P. inst_int_laws P.
    specialize (P wrap v lo hi). cbn zeta in P.
    destruct P as [_ [[P1 P2] [P3 [P4 P5]]]]; [apply Z.leb_le; exact Hle|].
    rewrite !I_leb_true, !I_ltb_true in *.
    split; [lia|]. split; [exact P3|]. split; [exact P4|]. intros [? ?]. apply P5; lia.
  - intros prec emax min max wrap v Hb Hv. cbn zeta. unfold sb_make. simpl sb_value_.
    destruct (binary_clamp prec emax v (Binary (binary_of_Z prec emax min)) (Binary (binary_of_Z prec emax max)) Hb Hv)
      as [R1 [R2 [R3 R4]]].
    split; [exact R1|]. split; [intros H; rewrite (R2 H); reflexivity|].
    split; [intros H; rewrite (R3 H); reflexivity|].
    intros H1 H2. rewrite (R4 H1 H2). reflexivity.
  - intros prec emax wrap v lo hi Hb Hv. cbn zeta. unfold db_make. simpl db_value_.
    exact (binary_clamp prec emax v lo hi Hb Hv).
  - split; [reflexivity|]. split; reflexivity.
Qed.

(** ** C2: wrap mode *)

(** C2 (counterexample). Three wrap-mode assignments whose stored value is
    not congruent to the assigned one modulo the length, or not in range:
    - [unsigned] with bounds [2] and [11]: [0u - 2u] wraps to [2^32 - 2]
      before the modulo, so assigning [0] stores [6], where the values of
      the range congruent to [0] modulo [10] are [10] only;
    - [float] with bounds [0] and [1]: a NaN passes both comparisons and is
      stored, and NaN is not [>= min];
    - [float] with bounds [0.5] and [1.5]: [2^24 - 0.5] rounds to [2^24],
      whose modulo [1] is [0], so assigning [2^24] stores [0.5], which
      differs from [2^24] by no integer multiple of [1]. *)
Lemma assign_wrap_counterexample :
  (let s := @db_make unsigned _ true (Integer 5) (Integer 2) (Integer 11) in
   zv (db_value_ (db_assign s (Integer 0))) = 6 /\
   ~ (exists k : Z, zv (db_value_ (db_assign s (Integer 0))) = 0 + k * (11 - 2 + 1))) /\
  (let s := @db_make float _ true (num_of_int 0) (num_of_int 0) (num_of_int 1) in
   let r := fp (db_value_ (db_assign s (Binary S754_nan))) in
   r = S754_nan /\ SFleb (fp (min_ s)) r = false) /\
  (let s := @db_make float _ true (Binary (binary_normalize 24 128 1 (-1) false))
     (Binary (binary_normalize 24 128 1 (-1) false)) (Binary (binary_normalize 24 128 3 (-1) false)) in
   let r := fp (db_value_ (db_assign s (num_of_int (2 ^ 24)))) in
   r = S754_finite false 8388608 (-24) /\
   ~ (exists k : Z, (Approx.Q_of_finite r == inject_Z (2 ^ 24) + inject_Z k * 1)%Q)).
Proof.
  split; [|split].
  - cbn zeta.
    assert (E : zv (db_value_ (db_assign (@db_make unsigned _ true (Integer 5) (Integer 2)
                  (Integer 11)) (Integer 0))) = 6) by (vm_compute; reflexivity).
    rewrite E. split; [reflexivity|]. intros [k Hk]. lia.
  - cbn zeta. vm_compute. split; reflexivity.
  - cbn zeta.
    assert (E : fp (db_value_ (db_assign (@db_make float _ true
                  (Binary (binary_normalize 24 128 1 (-1) false))
                  (Binary (binary_normalize 24 128 1 (-1) false))
                  (Binary (binary_normalize 24 128 3 (-1) false)))
                  (num_of_int (2 ^ 24)))) = S754_finite false 8388608 (-24))
      by (vm_compute; reflexivity).
    rewrite E. split; [reflexivity|].
    intros [k Hk].
    cbv [Approx.Q_of_finite Qeq Qplus Qmult inject_Z Qnum Qden cond_Zopp] in Hk.
    change (Pos.pow 2 24) with 16777216%positive in Hk. lia.
Qed.

(** C2 (amended). In wrap mode, for either variant, over an integral [T]
    of any width, signed or unsigned, with [min <= max] values of [T] and
    where [max - min + 1] and [v - min] are values of [T]: the stored value
    lies in [[min, max]], is congruent to [v] modulo [max - min + 1], and
    for [v] out of range equals [min + floored_modulo(v - min, max - min + 1)].
    Over a floating-point [T] a NaN is stored as NaN.
    [StaticallyBounded<int, 0, 11, true>] stores 3 for an assignment of
    15. *)
Theorem assign_wrap_correct :
  (forall (sgn : bool) (w min max : Z) (s : StaticallyBounded (integer sgn w) min max true)
          (v : integer sgn w),
     0 < w -> int_fits sgn w min -> int_fits sgn w max -> min <= max ->
     int_fits sgn w (max - min + 1) -> int_fits sgn w (zv v - min) ->
     let L := max - min + 1 in
     let r := zv (sb_value_ (sb_assign s v)) in
     min <= r <= max /\ (exists k : Z, r = zv v + k * L) /\
     ((zv v < min \/ max < zv v) -> r = min + modulo_Z (zv v - min) L)) /\
  (forall (sgn : bool) (w : Z) (s : DynamicallyBounded (integer sgn w) true) (v : integer sgn w),
     0 < w -> int_fits sgn w (zv (min_ s)) -> int_fits sgn w (zv (max_ s)) ->
     zv (min_ s) <= zv (max_ s) ->
     int_fits sgn w (zv (max_ s) - zv (min_ s) + 1) -> int_fits sgn w (zv v - zv (min_ s)) ->
     let L := zv (max_ s) - zv (min_ s) + 1 in
     let r := zv (db_value_ (db_assign s v)) in
     zv (min_ s) <= r <= zv (max_ s) /\ (exists k : Z, r = zv v + k * L) /\
     ((zv v < zv (min_ s) \/ zv (max_ s) < zv v) ->
      r = zv (min_ s) + modulo_Z (zv v - zv (min_ s)) L)) /\
  (forall (prec emax min max : Z) (s : StaticallyBounded (binary prec emax) min max true),
     fp (sb_value_ (sb_assign s (Binary S754_nan))) = S754_nan) /\
  (forall (prec emax : Z) (s : DynamicallyBounded (binary prec emax) true),
     fp (db_value_ (db_assign s (Binary S754_nan))) = S754_nan) /\
  zv (sb_value_ (sb_assign (@sb_make int _ 0 11 true (Integer 5)) (Integer 15))) = 3.
Proof.
  split; [exact sb_wrap_int|]. split; [exact db_wrap_int|].
  split; [exact sb_assign_nan|]. split; [exact db_assign_nan|]. reflexivity.
Qed.

(** ** C4: the bound setters *)

(** C4. For the runtime variant, [min(new_min)] sets [min_] exactly when
    [new_min <= max_] and [max(new_max)] sets [max_] exactly when
    [min_ <= new_max]; a rejected call leaves the object (both bounds
    included) unchanged; so from a state with [min_ <= max_], every
    sequence of setter calls ends in a state with [min_ <= max_]. *)
Theorem bound_setters_keep_invariant {T : Type} `{Numeric T} {wrap : bool} :
  (forall (s : DynamicallyBounded T wrap) (m : T),
     num_leb m (max_ s) = true ->
     db_set_min s m = mkDynamicallyBounded (db_value_ s) m (max_ s)) /\
  (forall (s : DynamicallyBounded T wrap) (m : T),
     num_leb m (max_ s) = false -> db_set_min s m = s) /\
  (forall (s : DynamicallyBounded T wrap) (m : T),
     num_leb (min_ s) m = true ->
     db_set_max s m = mkDynamicallyBounded (db_value_ s) (min_ s) m) /\
  (forall (s : DynamicallyBounded T wrap) (m : T),
     num_leb (min_ s) m = false -> db_set_max s m = s) /\
  (forall (s : DynamicallyBounded T wrap) (cs : list bound_call),
     num_leb (min_ s) (max_ s) = true ->
     num_leb (min_ (db_calls s cs)) (max_ (db_calls s cs)) = true).
Proof.
  split; [intros s m E; unfold db_set_min; rewrite E; reflexivity|].
  split; [intros s m E; unfold db_set_min; rewrite E; reflexivity|].
  split; [intros s m E; unfold db_set_max; rewrite E; reflexivity|].
  split; [intros s m E; unfold db_set_max; rewrite E; reflexivity|].
  intros s cs. revert s. induction cs as [|c cs IH]; intros s Hs; simpl; [exact Hs|].
  apply IH. destruct c as [m|m]; simpl.
  - unfold db_set_min. destruct (num_leb m (max_ s)) eqn:E; simpl; assumption.
  - unfold db_set_max. destruct (num_leb (min_ s) m) eqn:E; simpl; assumption.
Qed.

(** ** C5: bound changes do not touch the value *)

(** C5. For the runtime variant, [min(new_min)] and [max(new_max)] (and any
    sequence of them) never change the stored value, even when an accepted
    bound leaves it outside the new range; it stays there until the next
    write. [DynamicallyBounded<int>(2, 0, 10)] after [min(5)] holds 2 with
    bounds [[5, 10]], [normalize()] returns a float below 0, and [+= 0]
    then stores 5; [DynamicallyBounded<int>(8, 0, 10)] after [max(5)] gives
    a [normalize()] above 1. *)
Theorem bound_setters_keep_value :
  (forall (T : Type) `{Numeric T} (wrap : bool) (s : DynamicallyBounded T wrap) (m : T),
     db_value_ (db_set_min s m) = db_value_ s /\ db_value_ (db_set_max s m) = db_value_ s) /\
  (forall (T : Type) `{Numeric T} (wrap : bool) (s : DynamicallyBounded T wrap)
          (cs : list bound_call),
     db_value_ (db_calls s cs) = db_value_ s) /\
  (let x := db_set_min (@db_make Z _ false 2 0 10) 5 in
   db_value_ x = 2 /\ min_ x = 5 /\ max_ x = 10 /\
   F32.ltb0 (db_normalize x) = true /\
   db_value_ (db_add_assign x 0) = 5) /\
  (let x := db_set_max (@db_make Z _ false 8 0 10) 5 in
   db_value_ x = 8 /\ min_ x = 0 /\ max_ x = 5 /\
   SFltb F32.one (db_normalize x) = true).
Proof.
  assert (One : forall (T : Type) `{Numeric T} (wrap : bool)
                  (s : DynamicallyBounded T wrap) (m : T),
     db_value_ (db_set_min s m) = db_value_ s /\ db_value_ (db_set_max s m) = db_value_ s).
  { intros T HT wrap s m. unfold db_set_min, db_set_max.
    split; [destruct (num_leb m (max_ s))|destruct (num_leb (min_ s) m)]; reflexivity. }
  split; [exact One|]. split.
  - intros T HT wrap s cs. revert s. induction cs as [|c cs IH]; intros s; simpl; [reflexivity|].
    rewrite IH. destruct c; simpl; apply One.
  - split; vm_compute; repeat split; reflexivity.
Qed.

(** ** C6: increment and decrement of the compile-time variant *)

(** C6. For [StaticallyBounded], [operator++()] and [operator--()] return a
    copy of the object taken before the mutation, while the receiver becomes
    [operator=(value_ +/- 1)]; [operator++(int)] and [operator--(int)] make
    the same assignment and return a reference to the receiver, which
    denotes the mutated object. No other object changes. For
    [StaticallyBounded<int, 0, 11, true>] holding 11, [++x] returns a copy
    holding 11 and leaves [x] holding 0. *)
Theorem increment_return_contract :
  (forall (T : Type) `{Numeric T} (min max : Z) (wrap : bool)
          (h : @store T min max wrap) (this : loc),
     let inc := sb_assign (h this) (num_add (sb_value_ (h this)) (num_of_int 1)) in
     let dec := sb_assign (h this) (num_sub (sb_value_ (h this)) (num_of_int 1)) in
     (snd (sb_prefix_inc h this) = RetCopy (h this) /\
      fst (sb_prefix_inc h this) this = inc /\
      ret_deref (fst (sb_prefix_inc h this)) (snd (sb_prefix_inc h this)) = h this) /\
     (snd (sb_postfix_inc h this) = RetRef this /\
      fst (sb_postfix_inc h this) this = inc /\
      ret_deref (fst (sb_postfix_inc h this)) (snd (sb_postfix_inc h this)) = inc) /\
     (snd (sb_prefix_dec h this) = RetCopy (h this) /\
      fst (sb_prefix_dec h this) this = dec /\
      ret_deref (fst (sb_prefix_dec h this)) (snd (sb_prefix_dec h this)) = h this) /\
     (snd (sb_postfix_dec h this) = RetRef this /\
      fst (sb_postfix_dec h this) this = dec /\
      ret_deref (fst (sb_postfix_dec h this)) (snd (sb_postfix_dec h this)) = dec) /\
     (forall l : loc, l <> this ->
        fst (sb_prefix_inc h this) l = h l /\ fst (sb_postfix_inc h this) l = h l /\
        fst (sb_prefix_dec h this) l = h l /\ fst (sb_postfix_dec h this) l = h l)) /\
  (let h : @store Z 0 11 true := fun _ => sb_make 11 in
   snd (sb_prefix_inc h 0%nat) = RetCopy (mkStaticallyBounded 11) /\
   sb_value_ (fst (sb_prefix_inc h 0%nat) 0%nat) = 0).
Proof.
  split; [|split; reflexivity].
  intros T HT min max wrap h this inc dec.
  unfold sb_prefix_inc, sb_postfix_inc, sb_prefix_dec, sb_postfix_dec, store_write; simpl.
  rewrite Nat.eqb_refl.
  split; [repeat split; reflexivity|].
  split; [repeat split; reflexivity|].
  split; [repeat split; reflexivity|].
  split; [repeat split; reflexivity|].
  intros l Hl. apply Nat.eqb_neq in Hl. rewrite Hl. repeat split.
Qed.

(** ** C10: [operator!=] is the negation of [operator==] *)

(** C10. For two objects of the same instantiated type, [operator!=] is the
    negation of [operator==]: for the compile-time variant it holds iff the
    values differ; for the runtime variant iff the value, [min()] or [max()]
    differ. *)
Theorem neq_is_negation_of_eq :
  (forall (T : Type) `{Numeric T} (min max : Z) (wrap : bool)
          (l r : StaticallyBounded T min max wrap),
     sb_neqb l r = negb (sb_eqb l r)) /\
  (forall (T : Type) `{Numeric T} (wrap : bool) (l r : DynamicallyBounded T wrap),
     db_neqb l r = negb (db_eqb l r)) /\
  (forall (min max : Z) (wrap : bool) (l r : StaticallyBounded Z min max wrap),
     sb_neqb l r = true <-> sb_value_ l <> sb_value_ r) /\
  (forall (min max : Z) (wrap : bool) (l r : StaticallyBounded Q min max wrap),
     sb_neqb l r = true <-> ~ (sb_value_ l == sb_value_ r)%Q) /\
  (forall (wrap : bool) (l r : DynamicallyBounded Z wrap),
     db_neqb l r = true <->
     db_value_ l <> db_value_ r \/ min_ l <> min_ r \/ max_ l <> max_ r) /\
  (forall (wrap : bool) (l r : DynamicallyBounded Q wrap),
     db_neqb l r = true <->
     ~ (db_value_ l == db_value_ r)%Q \/ ~ (min_ l == min_ r)%Q \/ ~ (max_ l == max_ r)%Q).
Proof.
  assert (DB : forall (T : Type) `{Numeric T} (wrap : bool) (l r : DynamicallyBounded T wrap),
     db_neqb l r = negb (db_eqb l r)).
  { intros T HT wrap l r. unfold db_neqb, db_eqb, num_neqb.
    rewrite !negb_andb. reflexivity. }
  split; [intros; reflexivity|]. split; [exact DB|].
  split.
  { intros min max wrap l r. unfold sb_neqb, num_neqb, sb_get. simpl.
    rewrite negb_true_iff, Z.eqb_neq. reflexivity. }
  split.
  { intros min max wrap l r. unfold sb_neqb, num_neqb, sb_get. simpl.
    rewrite negb_true_iff. split.
    - intros E Heq. apply Qeq_bool_iff in Heq. congruence.
    - intros Hn. apply not_true_iff_false. rewrite Qeq_bool_iff. exact Hn. }
  split.
  { intros wrap l r. unfold db_neqb, num_neqb, db_get, db_min, db_max. simpl.
    rewrite !orb_true_iff, !negb_true_iff, !Z.eqb_neq. tauto. }
  { intros wrap l r. unfold db_neqb, num_neqb, db_get, db_min, db_max. simpl.
    rewrite !orb_true_iff, !negb_true_iff.
    assert (Q1 : forall a b : Q, Qeq_bool a b = false <-> ~ (a == b)%Q).
    { intros a b. split.
      - intros E Heq. apply Qeq_bool_iff in Heq. congruence.
      - intros Hn. apply not_true_iff_false. rewrite Qeq_bool_iff. exact Hn. }
    rewrite !Q1. tauto. }
Qed.

(** ** C1: construction with [min > max] *)

(** C1 (evaluation of the constructor). [DynamicallyBounded<int>(10, 5, 2)]
    raises [max_] to 5 but stores [std::clamp(10, 5, 2)] = 2, clamped
    against the parameters [min] and [max] rather than the corrected range
    [[5, 5]]. In general the bounds are [[min, min]] after a construction
    with [max < min], and every later assignment stores 5 for the example. *)
Theorem db_make_inverted_bounds :
  (forall wrap : bool, @db_make Z _ wrap 10 5 2 = mkDynamicallyBounded 2 5 5) /\
  (forall (wrap : bool) (v lo hi : Z), hi < lo ->
     min_ (@db_make Z _ wrap v lo hi) = lo /\ max_ (@db_make Z _ wrap v lo hi) = lo) /\
  (forall (wrap : bool) (v : Z), db_value_ (db_assign (@db_make Z _ wrap 10 5 2) v) = 5).
Proof.
  split; [intros []; reflexivity|]. split.
  - intros wrap v lo hi Hlt. unfold db_make, std_max. simpl.
    destruct (Z.ltb_spec lo hi); [lia|]. split; reflexivity.
  - intros [] v; unfold db_assign, db_make, db_min, db_max, std_max, std_clamp; simpl.
    + destruct (v <? 5) eqn:E1; destruct (5 <? v) eqn:E2; simpl;
        try (unfold modulo_Z; rewrite Z.mod_1_r; lia).
      apply Z.ltb_ge in E1, E2. lia.
    + destruct (v <? 5) eqn:E1; [reflexivity|].
      destruct (5 <? v) eqn:E2; [reflexivity|].
      apply Z.ltb_ge in E1, E2. lia.
Qed.

(** ** C9: [normalize] *)

(** C9 (counterexample). [normalize] computes [value - min] and
    [max - min] in [T], converts both to [float] and divides, so each step
    rounds, and the endpoints can fail with [min < max]:
    - [DynamicallyBounded<float>] with bounds [-2^127] and [2^127] at
      [max]: [max - min] overflows to infinity, [inf / inf] is NaN;
    - [DynamicallyBounded<double>] with bounds [0] and [2^-200] at [min]:
      [float(2^-200)] is [0], [0 / 0] is NaN;
    - [DynamicallyBounded<double>] with bounds [-2^-1074] and [2^-150] at
      [min]: [float(max - min)] is [0], [0 / 0] is NaN;
    - [DynamicallyBounded<double>] with bounds [2^-1000] and
      [(2^25 - 1) * 2^103] at [max]: [float(value - min)] rounds up to
      [2^128], infinite in [float], [inf / inf] is NaN;
    - [StaticallyBounded<float, 1, 33554435>] at [max]: [float(33554435)]
      is [33554436], [33554436 - 1] rounds to [33554436], divided by
      [float(33554434) = 33554432] it gives [1.0000001], not [1.0]. *)
Lemma normalize_endpoint_counterexample :
  (let x := @db_make float _ false (Binary (binary_normalize 24 128 1 127 false))
              (Binary (binary_normalize 24 128 (-1) 127 false))
              (Binary (binary_normalize 24 128 1 127 false)) in
   SFltb (fp (min_ x)) (fp (max_ x)) = true /\ SFeqb (fp (db_value_ x)) (fp (max_ x)) = true /\
   db_normalize x = S754_nan) /\
  (let x := @db_make double _ false (num_of_int 0) (num_of_int 0)
              (Binary (binary_normalize 53 1024 1 (-200) false)) in
   SFltb (fp (min_ x)) (fp (max_ x)) = true /\ SFeqb (fp (db_value_ x)) (fp (min_ x)) = true /\
   db_normalize x = S754_nan) /\
  (let x := @db_make double _ false (Binary (binary_normalize 53 1024 (-1) (-1074) false))
              (Binary (binary_normalize 53 1024 (-1) (-1074) false))
              (Binary (binary_normalize 53 1024 1 (-150) false)) in
   SFltb (fp (min_ x)) (fp (max_ x)) = true /\ SFeqb (fp (db_value_ x)) (fp (min_ x)) = true /\
   db_normalize x = S754_nan) /\
  (let x := @db_make double _ false (Binary (binary_normalize 53 1024 (33554431 * 2 ^ 103) 0 false))
              (Binary (binary_normalize 53 1024 1 (-1000) false))
              (Binary (binary_normalize 53 1024 (33554431 * 2 ^ 103) 0 false)) in
   SFltb (fp (min_ x)) (fp (max_ x)) = true /\ SFeqb (fp (db_value_ x)) (fp (max_ x)) = true /\
   db_normalize x = S754_nan) /\
  (let x := @sb_make float _ 1 33554435 false (num_of_int 33554435) in
   SFeqb (fp (sb_value_ x)) (binary_of_Z 24 128 33554435) = true /\
   sb_normalize x = S754_finite false 8388609 (-23) /\ sb_normalize x <> F32.one).
Proof.
  split; [|split; [|split; [|split]]]; vm_compute; (split; [reflexivity|]); split; try reflexivity.
  discriminate.
Qed.

(** C9 (amended). [normalize] returns
    [float(value - min) / float(max - min)], each difference computed in
    [T] (for the compile-time variant [max - min] in [int]) and converted
    to [float], and the division done in [float]. For an integral [T] with
    [min < max] and the differences values of their types, it returns
    [+0.0] at [value == min] when [float(max - min) > 0], and exactly [1.0]
    at [value == max] when [float(max - min)] is finite and positive. For a
    floating-point [T] with [min < max], it returns a zero at
    [value == min] when [min] is finite and [float(max - min) > 0], and
    exactly [1.0] at [value == max] when [float(max - min)] is finite and
    positive and, for the compile-time variant, [float(T(max) - T(min))]
    equals [float(max - min)]. Value 5 in [[0, 10]] and value 0.5 in
    [[0.0, 1.0]] give 0.5. *)
Theorem normalize_endpoints :
  (forall (T : Type) `{Numeric T} (min max : Z) (wrap : bool)
          (s : StaticallyBounded T min max wrap),
     sb_normalize s =
     F32.div (num_to_float (num_sub (sb_value_ s) (num_of_int min))) (F32.of_Z (max - min))) /\
  (forall (T : Type) `{Numeric T} (wrap : bool) (s : DynamicallyBounded T wrap),
     db_normalize s =
     F32.div (num_to_float (num_sub (db_value_ s) (min_ s)))
             (num_to_float (num_sub (max_ s) (min_ s)))) /\
  (forall (sgn : bool) (w min max : Z) (wrap : bool)
          (s : StaticallyBounded (integer sgn w) min max wrap),
     0 < w -> int_fits sgn w min -> int_fits sgn w max -> min < max ->
     int_fits true 32 (max - min) -> int_fits sgn w (max - min) ->
     (zv (sb_value_ s) = min -> F32.gt0 (F32.of_Z (max - min)) = true ->
      sb_normalize s = S754_zero false) /\
     (zv (sb_value_ s) = max -> F32.is_finite_pos (F32.of_Z (max - min)) = true ->
      sb_normalize s = F32.one)) /\
  (forall (sgn : bool) (w : Z) (wrap : bool) (s : DynamicallyBounded (integer sgn w) wrap),
     0 < w -> zv (min_ s) < zv (max_ s) -> int_fits sgn w (zv (max_ s) - zv (min_ s)) ->
     (zv (db_value_ s) = zv (min_ s) ->
      F32.gt0 (F32.of_Z (zv (max_ s) - zv (min_ s))) = true ->
      db_normalize s = S754_zero false) /\
     (zv (db_value_ s) = zv (max_ s) ->
      F32.is_finite_pos (F32.of_Z (zv (max_ s) - zv (min_ s))) = true ->
      db_normalize s = F32.one)) /\
  (forall (prec emax min max : Z) (wrap : bool)
          (s : StaticallyBounded (binary prec emax) min max wrap),
     min < max -> int_fits true 32 (max - min) ->
     (SFeqb (fp (sb_value_ s)) (binary_of_Z prec emax min) = true ->
      is_finite (binary_of_Z prec emax min) = true ->
      F32.gt0 (F32.of_Z (max - min)) = true ->
      SFeqb (sb_normalize s) (S754_zero false) = true) /\
     (SFeqb (fp (sb_value_ s)) (binary_of_Z prec emax max) = true ->
      to_float (SFsub prec emax (binary_of_Z prec emax max) (binary_of_Z prec emax min)) =
        F32.of_Z (max - min) ->
      F32.is_finite_pos (F32.of_Z (max - min)) = true ->
      sb_normalize s = F32.one)) /\
  (forall (prec emax : Z) (wrap : bool) (s : DynamicallyBounded (binary prec emax) wrap),
     SFltb (fp (min_ s)) (fp (max_ s)) = true ->
     (SFeqb (fp (db_value_ s)) (fp (min_ s)) = true -> is_finite (fp (min_ s)) = true ->
      F32.gt0 (to_float (SFsub prec emax (fp (max_ s)) (fp (min_ s)))) = true ->
      SFeqb (db_normalize s) (S754_zero false) = true) /\
     (SFeqb (fp (db_value_ s)) (fp (max_ s)) = true ->
      F32.is_finite_pos (to_float (SFsub prec emax (fp (max_ s)) (fp (min_ s)))) = true ->
      db_normalize s = F32.one)) /\
  sb_normalize (@sb_make int _ 0 10 false (Integer 5)) = S754_finite false 8388608 (-24) /\
  db_normalize (@db_make float _ false (Binary (binary_normalize 24 128 1 (-1) false)) (num_of_int 0)
                  (num_of_int 1)) = S754_finite false 8388608 (-24).
Proof.
  split; [intros; reflexivity|]. split; [intros; reflexivity|].
  split.
  { intros sgn w min max wrap s Hw Hmin Hmax Hlt _ Hd. unfold sb_normalize.
    cbn [num_to_float num_sub num_of_int Numeric_integer zv].
    rewrite (int_wrap_id sgn w min) by assumption. split.
    - intros Hv Hg. rewrite Hv, Z.sub_diag, int_wrap_id by (auto using int_fits_zero).
      apply (f32_zero_div_gt0 false). exact Hg.
    - intros Hv Hf. rewrite Hv, int_wrap_id by assumption. apply f32_div_self_pos. exact Hf. }
  split.
  { intros sgn w wrap s Hw Hlt Hd. unfold db_normalize.
    cbn [num_to_float num_sub Numeric_integer zv].
    rewrite (int_wrap_id sgn w (zv (max_ s) - zv (min_ s))) by assumption. split.
    - intros Hv Hg. rewrite Hv, Z.sub_diag, int_wrap_id by (auto using int_fits_zero).
      apply (f32_zero_div_gt0 false). exact Hg.
    - intros Hv Hf. rewrite Hv, int_wrap_id by assumption. apply f32_div_self_pos. exact Hf. }
  split.
  { intros prec emax min max wrap s _ _. unfold sb_normalize.
    cbn [num_to_float num_sub num_of_int Numeric_binary fp]. split.
    - intros Hv Hfin Hg.
      destruct (SFsub_eq_zero prec emax _ _ Hfin Hv) as [z ->]. simpl to_float.
      rewrite (f32_zero_div_gt0 z _ Hg). destruct z; reflexivity.
    - intros Hv Heq Hf. rewrite (SFsub_eq_l prec emax _ _ _ Hv) by (rewrite Heq; exact Hf).
      rewrite Heq. apply f32_div_self_pos. exact Hf. }
  split.
  { intros prec emax wrap s _. unfold db_normalize.
    cbn [num_to_float num_sub Numeric_binary fp]. split.
    - intros Hv Hfin Hg.
      destruct (SFsub_eq_zero prec emax _ _ Hfin Hv) as [z ->]. simpl to_float.
      rewrite (f32_zero_div_gt0 z _ Hg). destruct z; reflexivity.
    - intros Hv Hf. rewrite (SFsub_eq_l prec emax _ _ _ Hv Hf).
      apply f32_div_self_pos. exact Hf. }
  split; vm_compute; reflexivity.
Qed.

(** ** Witnesses: the theorems at concrete objects *)

(** Closes [int_fits sgn w x] at concrete [sgn], [w] and [x]. *)
Ltac fits := unfold int_fits; cbn; lia.

Lemma assign_clamp_correct_witness :
  let r := sb_value_ (sb_assign (@sb_make int _ 0 127 false (Integer 0)) (Integer 200)) in
  (0 <= zv r <= 127) /\ (0 <= 200 <= 127 -> r = Integer 200).
Proof.
  destruct assign_clamp_correct as [A _].
  exact (A true 32 0 127 _ (Integer 200) ltac:(lia) ltac:(fits) ltac:(fits) ltac:(lia)).
Defined.

Lemma assign_wrap_correct_witness :
  let L := 11 - 0 + 1 in
  let r := zv (sb_value_ (sb_assign (@sb_make int _ 0 11 true (Integer 5)) (Integer 15))) in
  0 <= r <= 11 /\ (exists k : Z, r = 15 + k * L) /\
  ((15 < 0 \/ 11 < 15) -> r = 0 + modulo_Z (15 - 0) L).
Proof.
  destruct assign_wrap_correct as [A _].
  exact (A true 32 0 11 _ (Integer 15) ltac:(lia) ltac:(fits) ltac:(fits) ltac:(lia)
           ltac:(fits) ltac:(fits)).
Defined.

Lemma construction_always_clamps_witness :
  let r := sb_value_ (@sb_make int _ 0 11 true (Integer 15)) in
  (0 <= zv r <= 11) /\ (15 < 0 -> zv r = 0) /\ (11 < 15 -> zv r = 11) /\
  (0 <= 15 <= 11 -> r = Integer 15).
Proof.
  destruct construction_always_clamps as [A _].
  exact (A true 32 0 11 true (Integer 15) ltac:(lia) ltac:(fits) ltac:(fits) ltac:(lia)).
Defined.

Lemma normalize_endpoints_witness :
  sb_normalize (@sb_make int _ 0 10 false (Integer 10)) = F32.one /\
  db_normalize (@db_make float _ false (num_of_int 1) (num_of_int 0) (num_of_int 1)) = F32.one.
Proof.
  destruct normalize_endpoints as [_ [_ [A [_ [_ [B _]]]]]]. split.
  - destruct (A true 32 0 10 false (sb_make (Integer 10)) ltac:(lia) ltac:(fits) ltac:(fits)
                ltac:(lia) ltac:(fits) ltac:(fits)) as [_ A2].
    apply A2; vm_compute; reflexivity.
  - destruct (B 24 128 false (@db_make float _ false (num_of_int 1) (num_of_int 0) (num_of_int 1)))
      as [_ B2]; [vm_compute; reflexivity|].
    apply B2; vm_compute; reflexivity.
Defined.

Lemma bound_setters_keep_invariant_witness :
  let s := @db_make Z _ false 3 0 10 in
  let cs := cons (SetMin 20) (cons (SetMax 5) (cons (SetMin 4) nil)) in
  num_leb (min_ s) (max_ s) = true /\
  num_leb (min_ (db_calls s cs)) (max_ (db_calls s cs)) = true.
Proof.
  cbn zeta. split; [reflexivity|].
  apply (proj2 (proj2 (proj2 (proj2 (@bound_setters_keep_invariant Z _ false))))).
  reflexivity.
Defined.

Lemma assign_wrap_in_range_identity_witness :
  0 <= 7 <= 11 /\ sb_assign (@sb_make Z _ 0 11 true 5) 7 = mkStaticallyBounded 7.
Proof.
  split; [lia|].
  exact (proj1 assign_wrap_in_range_identity 0 11 (sb_make 5) 7 ltac:(lia)).
Defined.

Lemma increment_return_contract_witness :
  let h : @store Z 0 11 true := fun _ => sb_make 11 in
  (1 <> 0)%nat /\
  (fst (sb_prefix_inc h 0%nat) 1%nat = h 1%nat /\ fst (sb_postfix_inc h 0%nat) 1%nat = h 1%nat /\
   fst (sb_prefix_dec h 0%nat) 1%nat = h 1%nat /\ fst (sb_postfix_dec h 0%nat) 1%nat = h 1%nat).
Proof.
  cbn zeta. split; [discriminate|].
  apply (proj2 (proj2 (proj2 (proj2
           (proj1 increment_return_contract Z _ 0 11 true (fun _ => sb_make 11) 0%nat))))).
  discriminate.
Defined.

Lemma db_make_inverted_bounds_witness :
  2 < 5 /\
  (min_ (@db_make Z _ false 10 5 2) = 5 /\ max_ (@db_make Z _ false 10 5 2) = 5).
Proof.
  split; [lia|].
  exact (proj1 (proj2 db_make_inverted_bounds) false 10 5 2 ltac:(lia)).
Defined.

(** * Properties of the remaining code *)

(** ** Sequences of writes *)

Lemma sb_write_apply_assign {T : Type} `{Numeric T} {min max : Z} {wrap : bool}
  (s : StaticallyBounded T min max wrap) (w : sb_write) :
  exists v, sb_write_apply s w = sb_assign s v.
Proof. destruct w; eexists; reflexivity. Qed.

Lemma db_write_apply_assign {T : Type} `{Numeric T} {wrap : bool}
  (s : DynamicallyBounded T wrap) (w : db_write) :
  exists v, db_write_apply s w = db_assign s v.
Proof. destruct w; eexists; reflexivity. Qed.

Lemma sb_writes_invariant {T : Type} `{Numeric T} {min max : Z} {wrap : bool}
  (P : T -> Prop)
  (HP : forall (s : StaticallyBounded T min max wrap) v, P (sb_value_ (sb_assign s v))) :
  forall ws (s : StaticallyBounded T min max wrap),
  P (sb_value_ s) -> P (sb_value_ (sb_writes s ws)).
Proof.
  induction ws as [|w ws IH]; intros s Hs; simpl; [exact Hs|].
  apply IH. destruct (sb_write_apply_assign s w) as [v ->]. apply HP.
Qed.

Lemma db_assign_bounds {T : Type} `{Numeric T} {wrap : bool}
  (s : DynamicallyBounded T wrap) (v : T) :
  min_ (db_assign s v) = min_ s /\ max_ (db_assign s v) = max_ s.
Proof.
  unfold db_assign. destruct wrap; [destruct (_ || _)|]; split; reflexivity.
Qed.

Lemma db_writes_bounds {T : Type} `{Numeric T} {wrap : bool} :
  forall ws (s : DynamicallyBounded T wrap),
  min_ (db_writes s ws) = min_ s /\ max_ (db_writes s ws) = max_ s.
Proof.
  induction ws as [|w ws IH]; intros s; simpl; [split; reflexivity|].
  destruct (IH (db_write_apply s w)) as [E1 E2]. rewrite E1, E2.
  destruct (db_write_apply_assign s w) as [v ->]. apply db_assign_bounds.
Qed.

Lemma db_writes_invariant {T : Type} `{Numeric T} {wrap : bool}
  (P : DynamicallyBounded T wrap -> Prop)
  (HP : forall (s : DynamicallyBounded T wrap) v, P s -> P (db_assign s v)) :
  forall ws s, P s -> P (db_writes s ws).
Proof.
  induction ws as [|w ws IH]; intros s Hs; simpl; [exact Hs|].
  apply IH. destruct (db_write_apply_assign s w) as [v ->]. apply HP. exact Hs.
Qed.
Lemma wrap_unique (lo hi a b k : Z) :
  lo <= a <= hi -> lo <= b <= hi -> a = b + k * (hi - lo + 1) -> a = b.
Proof.
  intros Ha Hb E. destruct (Z.lt_trichotomy k 0) as [Hk|[Hk|Hk]].
  - nia.
  - subst k. lia.
  - nia.
Qed.

Lemma sb_eta {T : Type} {min max : Z} {wrap : bool} (a b : StaticallyBounded T min max wrap) :
  sb_value_ a = sb_value_ b -> a = b.
Proof. destruct a, b. simpl. intros ->. reflexivity. Qed.

Lemma db_eta {T : Type} {wrap : bool} (a b : DynamicallyBounded T wrap) :
  db_value_ a = db_value_ b -> min_ a = min_ b -> max_ a = max_ b -> a = b.
Proof. destruct a, b. simpl. intros -> -> ->. reflexivity. Qed.

Lemma sb_write_apply_inc {T : Type} `{Numeric T} {min max : Z} {wrap : bool}
  (s : StaticallyBounded T min max wrap) :
  sb_write_apply s SbPrefixInc = sb_assign s (num_add (sb_value_ s) (num_of_int 1)) /\
  sb_write_apply s SbPostfixInc = sb_assign s (num_add (sb_value_ s) (num_of_int 1)).
Proof. split; reflexivity. Qed.

Lemma sb_write_apply_dec {T : Type} `{Numeric T} {min max : Z} {wrap : bool}
  (s : StaticallyBounded T min max wrap) :
  sb_write_apply s SbPrefixDec = sb_assign s (num_sub (sb_value_ s) (num_of_int 1)) /\
  sb_write_apply s SbPostfixDec = sb_assign s (num_sub (sb_value_ s) (num_of_int 1)).
Proof. split; reflexivity. Qed.

Lemma sb_make_range_int (sgn : bool) (w min max : Z) (wrap : bool) (v : integer sgn w) :
  0 < w -> int_fits sgn w min -> int_fits sgn w max -> min <= max ->
  min <= zv (sb_value_ (@sb_make (integer sgn w) _ min max wrap v)) <= max.
Proof.
  intros Hw Hmin Hmax Hle.
  pose proof (@sb_make_clamp (integer sgn w) _) as P. inst_int_laws P.
  specialize (P min max wrap v).
  rewrite !I_of_int in P by assumption. cbn zeta in P.
  destruct P as [_ [[P1 P2] _]]; [apply Z.leb_le; exact Hle|].
  apply I_leb_true in P1, P2. cbn [zv] in P1, P2. lia.
Qed.

(** X1. A [StaticallyBounded] object of an unsigned integral [T] built by
    its constructor keeps its value within [[min, max]] through any
    sequence of assignments, compound assignments (non-zero divisors) and
    prefix or postfix increments and decrements, in either mode, when
    [min <= max] are values of [T] and, in wrap mode, [max - min + 1] is
    one too. *)
Theorem sb_writes_stay_in_range :
  forall (w min max : Z) (wrap : bool) (v : integer false w)
         (ws : list (@sb_write (integer false w))),
  0 < w -> int_fits false w min -> int_fits false w max -> min <= max ->
  (wrap = true -> int_fits false w (max - min + 1)) ->
  forallb sb_write_defined ws = true ->
  min <= zv (sb_value_ (sb_writes (@sb_make (integer false w) _ min max wrap v) ws)) <= max.
Proof.
  intros w min max wrap v ws Hw Hmin Hmax Hle HL _.
  apply (sb_writes_invariant (fun x : integer false w => min <= zv x <= max)).
  - intros s u. apply sb_assign_range_int; assumption.
  - apply sb_make_range_int; assumption.
Qed.

(** X2. Assignments, compound assignments, [++] and [--] on a
    [DynamicallyBounded] object never change [min_] or [max_], for any [T].
    For an unsigned integral [T] with [min_ <= max_] (and [max_ - min_ + 1]
    a value of [T] in wrap mode), after at least one such write the value
    lies within [[min_, max_]]. *)
Theorem db_writes_keep_bounds_and_range :
  (forall (T : Type) `{Numeric T} (wrap : bool) (s : DynamicallyBounded T wrap)
          (ws : list (@db_write T)),
     min_ (db_writes s ws) = min_ s /\ max_ (db_writes s ws) = max_ s) /\
  (forall (w : Z) (wrap : bool) (s : DynamicallyBounded (integer false w) wrap)
          (ws : list (@db_write (integer false w))),
     0 < w -> int_fits false w (zv (min_ s)) -> int_fits false w (zv (max_ s)) ->
     zv (min_ s) <= zv (max_ s) ->
     (wrap = true -> int_fits false w (zv (max_ s) - zv (min_ s) + 1)) ->
     forallb db_write_defined ws = true ->
     (ws <> nil \/ zv (min_ s) <= zv (db_value_ s) <= zv (max_ s)) ->
     zv (min_ s) <= zv (db_value_ (db_writes s ws)) <= zv (max_ s)).
Proof.
  split; [intros; apply db_writes_bounds|].
  intros w wrap s [|x ws] Hw Hmin Hmax Hle HL _ Hne;
    [destruct Hne as [Hne|Hr]; [congruence|exact Hr]|].
  simpl. destruct (db_write_apply_assign s x) as [v ->].
  destruct (db_assign_bounds s v) as [E1 E2].
  apply (db_writes_invariant (fun t => min_ t = min_ s /\ max_ t = max_ s /\
                                        zv (min_ s) <= zv (db_value_ t) <= zv (max_ s))).
  - intros t u [F1 [F2 F3]]. destruct (db_assign_bounds t u) as [G1 G2].
    rewrite G1, G2. split; [exact F1|]. split; [exact F2|].
    rewrite <- F1, <- F2. apply db_assign_range_int; rewrite ?F1, ?F2; assumption.
  - split; [exact E1|]. split; [exact E2|]. apply db_assign_range_int; assumption.
Qed.

(** Wrap mode over an integral type: the stored value is the one value of
    the range congruent to [v] modulo the length. *)
Lemma sb_wrap_int_target (sgn : bool) (w min max : Z)
  (s : StaticallyBounded (integer sgn w) min max true) (v : integer sgn w) (b k : Z) :
  0 < w -> int_fits sgn w min -> int_fits sgn w max -> min <= max ->
  int_fits sgn w (max - min + 1) -> int_fits sgn w (zv v - min) ->
  min <= b <= max -> zv v = b + k * (max - min + 1) ->
  zv (sb_value_ (sb_assign s v)) = b.
Proof.
  intros Hw Hmin Hmax Hle HL Hv Hb E.
  destruct (sb_wrap_int sgn w min max s v Hw Hmin Hmax Hle HL Hv) as [R [[k1 K1] _]].
  apply (wrap_unique min max _ _ (k + k1) R Hb). lia.
Qed.

Lemma db_wrap_int_target (sgn : bool) (w : Z)
  (s : DynamicallyBounded (integer sgn w) true) (v : integer sgn w) (b k : Z) :
  0 < w -> int_fits sgn w (zv (min_ s)) -> int_fits sgn w (zv (max_ s)) ->
  zv (min_ s) <= zv (max_ s) ->
  int_fits sgn w (zv (max_ s) - zv (min_ s) + 1) -> int_fits sgn w (zv v - zv (min_ s)) ->
  zv (min_ s) <= b <= zv (max_ s) -> zv v = b + k * (zv (max_ s) - zv (min_ s) + 1) ->
  zv (db_value_ (db_assign s v)) = b.
Proof.
  intros Hw Hmin Hmax Hle HL Hv Hb E.
  destruct (db_wrap_int sgn w s v Hw Hmin Hmax Hle HL Hv) as [R [[k1 K1] _]].
  apply (wrap_unique (zv (min_ s)) (zv (max_ s)) _ _ (k + k1) R Hb). lia.
Qed.

(** X3. In wrap mode over an integral [T] of any width, signed or
    unsigned, assigning [v + k * (max - min + 1)] gives the same object as
    assigning [v], for both variants, when [min <= max], [max - min + 1],
    [v - min] and [v + k * (max - min + 1) - min] are values of [T]. *)
Theorem wrap_assign_periodic :
  (forall (sgn : bool) (w min max : Z) (s : StaticallyBounded (integer sgn w) min max true)
          (v : integer sgn w) (k : Z),
     0 < w -> int_fits sgn w min -> int_fits sgn w max -> min <= max ->
     int_fits sgn w (max - min + 1) -> int_fits sgn w (zv v - min) ->
     int_fits sgn w (zv v + k * (max - min + 1) - min) ->
     sb_assign s (Integer (zv v + k * (max - min + 1))) = sb_assign s v) /\
  (forall (sgn : bool) (w : Z) (s : DynamicallyBounded (integer sgn w) true)
          (v : integer sgn w) (k : Z),
     0 < w -> int_fits sgn w (zv (min_ s)) -> int_fits sgn w (zv (max_ s)) ->
     zv (min_ s) <= zv (max_ s) ->
     int_fits sgn w (zv (max_ s) - zv (min_ s) + 1) -> int_fits sgn w (zv v - zv (min_ s)) ->
     int_fits sgn w (zv v + k * (zv (max_ s) - zv (min_ s) + 1) - zv (min_ s)) ->
     db_assign s (Integer (zv v + k * (zv (max_ s) - zv (min_ s) + 1))) = db_assign s v).
Proof.
  split.
  - intros sgn w min max s v k Hw Hmin Hmax Hle HL Hv Hvk. apply sb_eta, integer_eta.
    destruct (sb_wrap_int sgn w min max s v Hw Hmin Hmax Hle HL Hv) as [R [[k1 K1] _]].
    apply (sb_wrap_int_target sgn w min max s _ _ (k - k1)); try (cbn [zv]; assumption). cbn [zv]. lia.
  - intros sgn w s v k Hw Hmin Hmax Hle HL Hv Hvk.
    destruct (db_assign_bounds s (Integer (zv v + k * (zv (max_ s) - zv (min_ s) + 1))))
      as [E1 E2].
    destruct (db_assign_bounds s v) as [F1 F2].
    apply db_eta; [|congruence|congruence]. apply integer_eta.
    destruct (db_wrap_int sgn w s v Hw Hmin Hmax Hle HL Hv) as [R [[k1 K1] _]].
    apply (db_wrap_int_target sgn w s _ _ (k - k1)); try (cbn [zv]; assumption). cbn [zv]. lia.
Qed.

Lemma int_fits_m1 (w : Z) : 1 <= w -> int_fits true w (-1).
Proof.
  unfold int_fits. intros Hw.
  assert (P : 1 <= 2 ^ (w - 1)) by (apply (Z.pow_le_mono_r 2 0 (w - 1)); lia).
  lia.
Qed.

(** [value_ + T(1)] and [value_ - T(1)] over an integral type, when the
    result is a value of [T]. *)
Lemma I_add1 {sgn : bool} {w : Z} (a : integer sgn w) :
  2 <= w -> int_fits sgn w (zv a + 1) -> zv (num_add a (num_of_int 1)) = zv a + 1.
Proof.
  intros Hw Ha. simpl. destruct (int_fits_small sgn w Hw) as [_ H1].
  rewrite (int_wrap_id sgn w 1) by (lia || exact H1).
  apply int_wrap_id; [lia|exact Ha].
Qed.

Lemma I_sub1 {sgn : bool} {w : Z} (a : integer sgn w) :
  2 <= w -> int_fits sgn w (zv a - 1) -> zv (num_sub a (num_of_int 1)) = zv a - 1.
Proof.
  intros Hw Ha. simpl. destruct (int_fits_small sgn w Hw) as [_ H1].
  rewrite (int_wrap_id sgn w 1) by (lia || exact H1).
  apply int_wrap_id; [lia|exact Ha].
Qed.

(** Clamp mode over an integral type: the stored value is
    [min(max(v, min), max)]. *)
Lemma sb_clamp_int (sgn : bool) (w min max : Z)
  (s : StaticallyBounded (integer sgn w) min max false) (v : integer sgn w) :
  0 < w -> int_fits sgn w min -> int_fits sgn w max -> min <= max ->
  zv (sb_value_ (sb_assign s v)) = Z.min (Z.max (zv v) min) max.
Proof.
  intros Hw Hmin Hmax Hle. unfold sb_assign.
  rewrite !I_of_int by assumption. unfold std_clamp. cbn [num_ltb Numeric_integer zv sb_value_].
  destruct (Z.ltb_spec (zv v) min); [cbn [zv]; lia|].
  destruct (Z.ltb_spec max (zv v)); cbn [zv]; lia.
Qed.

Lemma db_clamp_int (sgn : bool) (w : Z)
  (s : DynamicallyBounded (integer sgn w) false) (v : integer sgn w) :
  zv (min_ s) <= zv (max_ s) ->
  zv (db_value_ (db_assign s v)) = Z.min (Z.max (zv v) (zv (min_ s))) (zv (max_ s)).
Proof.
  intros Hle. unfold db_assign, std_clamp. cbn [num_ltb Numeric_integer db_value_].
  destruct (Z.ltb_spec (zv v) (zv (min_ s))); [lia|].
  destruct (Z.ltb_spec (zv (max_ s)) (zv v)); lia.
Qed.

(** X4. In wrap mode over a signed integral [T] whose range is wide enough
    that [min - 1], [max + 1] and [max - min + 1] are values of [T]: [++] at
    [max] stores [min] and [--] at [min] stores [max]; for an in-range
    value, [--] undoes [++] and [++] undoes [--], in prefix or postfix
    form, for both variants. *)
Theorem wrap_increment_cycle :
  (forall (w min max : Z) (s : StaticallyBounded (integer true w) min max true),
     2 <= w -> int_fits true w min -> int_fits true w max -> min <= max ->
     int_fits true w (max - min + 1) -> int_fits true w (min - 1) ->
     int_fits true w (max + 1) ->
     (zv (sb_value_ s) = max ->
      zv (sb_value_ (sb_write_apply s SbPrefixInc)) = min /\
      zv (sb_value_ (sb_write_apply s SbPostfixInc)) = min) /\
     (zv (sb_value_ s) = min ->
      zv (sb_value_ (sb_write_apply s SbPrefixDec)) = max /\
      zv (sb_value_ (sb_write_apply s SbPostfixDec)) = max) /\
     (forall i d : sb_write,
      min <= zv (sb_value_ s) <= max ->
      (i = SbPrefixInc \/ i = SbPostfixInc) -> (d = SbPrefixDec \/ d = SbPostfixDec) ->
      sb_write_apply (sb_write_apply s i) d = s /\
      sb_write_apply (sb_write_apply s d) i = s)) /\
  (forall (w : Z) (s : DynamicallyBounded (integer true w) true),
     2 <= w -> int_fits true w (zv (min_ s)) -> int_fits true w (zv (max_ s)) ->
     zv (min_ s) <= zv (max_ s) ->
     int_fits true w (zv (max_ s) - zv (min_ s) + 1) ->
     int_fits true w (zv (min_ s) - 1) -> int_fits true w (zv (max_ s) + 1) ->
     (zv (db_value_ s) = zv (max_ s) -> zv (db_value_ (db_inc s)) = zv (min_ s)) /\
     (zv (db_value_ s) = zv (min_ s) -> zv (db_value_ (db_dec s)) = zv (max_ s)) /\
     (zv (min_ s) <= zv (db_value_ s) <= zv (max_ s) ->
      db_dec (db_inc s) = s /\ db_inc (db_dec s) = s)).
Proof.
  split.
  - intros w min max s Hw Hmin Hmax Hle HL Hm1 Hp1.
    assert (Hw0 : 0 < w) by lia. pose proof (int_fits_m1 w ltac:(lia)) as Hn1.
    (* the values between [min - 1] and [max + 1], and between [-1] and [length] *)
    assert (FV : forall x, min - 1 <= x <= max + 1 -> int_fits true w x)
      by (intros x Hx; apply (int_fits_between true w (min - 1) (max + 1)); assumption).
    assert (FD : forall x, -1 <= x <= max - min + 1 -> int_fits true w x)
      by (intros x Hx; apply (int_fits_between true w (-1) (max - min + 1)); assumption).
    assert (SI : forall (t : StaticallyBounded (integer true w) min max true) (i : sb_write),
              (i = SbPrefixInc \/ i = SbPostfixInc) ->
              sb_write_apply t i = sb_assign t (num_add (sb_value_ t) (num_of_int 1)))
      by (intros t i [-> | ->]; reflexivity).
    assert (SD : forall (t : StaticallyBounded (integer true w) min max true) (d : sb_write),
              (d = SbPrefixDec \/ d = SbPostfixDec) ->
              sb_write_apply t d = sb_assign t (num_sub (sb_value_ t) (num_of_int 1)))
      by (intros t d [-> | ->]; reflexivity).
    (* [++] and [--] from a value in [[min, max]] *)
    assert (INC : forall (t : StaticallyBounded (integer true w) min max true) b k,
              min <= zv (sb_value_ t) <= max -> min <= b <= max ->
              zv (sb_value_ t) + 1 = b + k * (max - min + 1) ->
              zv (sb_value_ (sb_assign t (num_add (sb_value_ t) (num_of_int 1)))) = b).
    { intros t b k Ht Hb E. apply (sb_wrap_int_target true w min max t _ b k); try assumption;
        rewrite I_add1 by (assumption || apply FV; lia); [apply FD; lia|lia]. }
    assert (DEC : forall (t : StaticallyBounded (integer true w) min max true) b k,
              min <= zv (sb_value_ t) <= max -> min <= b <= max ->
              zv (sb_value_ t) - 1 = b + k * (max - min + 1) ->
              zv (sb_value_ (sb_assign t (num_sub (sb_value_ t) (num_of_int 1)))) = b).
    { intros t b k Ht Hb E. apply (sb_wrap_int_target true w min max t _ b k); try assumption;
        rewrite I_sub1 by (assumption || apply FV; lia); [apply FD; lia|lia]. }
    assert (RNG : forall (t : StaticallyBounded (integer true w) min max true) v,
              min <= zv (sb_value_ (sb_assign t v)) <= max)
      by (intros t v; apply sb_assign_range_int; auto).
    split; [|split].
    + intros Hv. rewrite !(SI s) by auto.
      split; apply (INC s min 1); lia.
    + intros Hv. rewrite !(SD s) by auto.
      split; apply (DEC s max (-1)); lia.
    + intros i d Hr Hi Hd. split.
      * rewrite (SI s i Hi), (SD _ d Hd). apply sb_eta, integer_eta.
        set (t := sb_assign s _).
        destruct (Z.eq_dec (zv (sb_value_ s)) max) as [Em|Em].
        -- assert (Et : zv (sb_value_ t) = min) by (apply (INC s min 1); lia).
           apply (DEC t _ (-1)); [apply RNG|exact Hr|lia].
        -- assert (Et : zv (sb_value_ t) = zv (sb_value_ s) + 1) by (apply (INC s _ 0); lia).
           apply (DEC t _ 0); [apply RNG|exact Hr|lia].
      * rewrite (SD s d Hd), (SI _ i Hi). apply sb_eta, integer_eta.
        set (t := sb_assign s _).
        destruct (Z.eq_dec (zv (sb_value_ s)) min) as [Em|Em].
        -- assert (Et : zv (sb_value_ t) = max) by (apply (DEC s max (-1)); lia).
           apply (INC t _ 1); [apply RNG|exact Hr|lia].
        -- assert (Et : zv (sb_value_ t) = zv (sb_value_ s) - 1) by (apply (DEC s _ 0); lia).
           apply (INC t _ 0); [apply RNG|exact Hr|lia].
  - intros w s Hw Hmin Hmax Hle HL Hm1 Hp1.
    assert (Hw0 : 0 < w) by lia. pose proof (int_fits_m1 w ltac:(lia)) as Hn1.
    set (lo := zv (min_ s)) in *. set (hi := zv (max_ s)) in *.
    assert (FV : forall x, lo - 1 <= x <= hi + 1 -> int_fits true w x)
      by (intros x Hx; apply (int_fits_between true w (lo - 1) (hi + 1)); assumption).
    assert (FD : forall x, -1 <= x <= hi - lo + 1 -> int_fits true w x)
      by (intros x Hx; apply (int_fits_between true w (-1) (hi - lo + 1)); assumption).
    assert (INC : forall t : DynamicallyBounded (integer true w) true,
              min_ t = min_ s -> max_ t = max_ s -> forall b k,
              lo <= zv (db_value_ t) <= hi -> lo <= b <= hi ->
              zv (db_value_ t) + 1 = b + k * (hi - lo + 1) ->
              zv (db_value_ (db_inc t)) = b).
    { intros t Et Ft b k Ht Hb E. unfold db_inc.
      apply (db_wrap_int_target true w t _ b k); rewrite ?Et, ?Ft; try assumption;
        rewrite I_add1 by (assumption || apply FV; lia); [apply FD; lia|lia]. }
    assert (DEC : forall t : DynamicallyBounded (integer true w) true,
              min_ t = min_ s -> max_ t = max_ s -> forall b k,
              lo <= zv (db_value_ t) <= hi -> lo <= b <= hi ->
              zv (db_value_ t) - 1 = b + k * (hi - lo + 1) ->
              zv (db_value_ (db_dec t)) = b).
    { intros t Et Ft b k Ht Hb E. unfold db_dec.
      apply (db_wrap_int_target true w t _ b k); rewrite ?Et, ?Ft; try assumption;
        rewrite I_sub1 by (assumption || apply FV; lia); [apply FD; lia|lia]. }
    assert (BI : forall t : DynamicallyBounded (integer true w) true,
              min_ (db_inc t) = min_ t /\ max_ (db_inc t) = max_ t)
      by (intros t; apply db_assign_bounds).
    assert (BD : forall t : DynamicallyBounded (integer true w) true,
              min_ (db_dec t) = min_ t /\ max_ (db_dec t) = max_ t)
      by (intros t; apply db_assign_bounds).
    assert (RI : lo <= zv (db_value_ (db_inc s)) <= hi)
      by (apply db_assign_range_int; auto).
    assert (RD : lo <= zv (db_value_ (db_dec s)) <= hi)
      by (apply db_assign_range_int; auto).
    split; [|split].
    + intros Hv. apply (INC s eq_refl eq_refl lo 1); lia.
    + intros Hv. apply (DEC s eq_refl eq_refl hi (-1)); lia.
    + intros Hr. destruct (BI s) as [I1 I2]. destruct (BD s) as [D1 D2]. split.
      * destruct (BD (db_inc s)) as [J1 J2].
        apply db_eta; [apply integer_eta|congruence|congruence].
        destruct (Z.eq_dec (zv (db_value_ s)) hi) as [Em|Em].
        -- assert (Et : zv (db_value_ (db_inc s)) = lo) by (apply (INC s eq_refl eq_refl lo 1); lia).
           apply (DEC _ I1 I2 _ (-1)); [exact RI|exact Hr|lia].
        -- assert (Et : zv (db_value_ (db_inc s)) = zv (db_value_ s) + 1)
             by (apply (INC s eq_refl eq_refl _ 0); lia).
           apply (DEC _ I1 I2 _ 0); [exact RI|exact Hr|lia].
      * destruct (BI (db_dec s)) as [J1 J2].
        apply db_eta; [apply integer_eta|congruence|congruence].
        destruct (Z.eq_dec (zv (db_value_ s)) lo) as [Em|Em].
        -- assert (Et : zv (db_value_ (db_dec s)) = hi) by (apply (DEC s eq_refl eq_refl hi (-1)); lia).
           apply (INC _ D1 D2 _ 1); [exact RD|exact Hr|lia].
        -- assert (Et : zv (db_value_ (db_dec s)) = zv (db_value_ s) - 1)
             by (apply (DEC s eq_refl eq_refl _ 0); lia).
           apply (INC _ D1 D2 _ 0); [exact RD|exact Hr|lia].
Qed.

(** X5. In clamp mode over an integral [T], signed or unsigned, from an
    in-range value [v], [++] stores [min(v + 1, max)] when [v + 1] is a
    value of [T], and [--] stores [max(v - 1, min)] when [v - 1] is one,
    for both variants: the value saturates at the bounds. *)
Theorem clamp_increment_saturates :
  (forall (sgn : bool) (w min max : Z) (s : StaticallyBounded (integer sgn w) min max false)
          (x : sb_write),
     2 <= w -> int_fits sgn w min -> int_fits sgn w max -> min <= max ->
     min <= zv (sb_value_ s) <= max ->
     ((x = SbPrefixInc \/ x = SbPostfixInc) -> int_fits sgn w (zv (sb_value_ s) + 1) ->
      zv (sb_value_ (sb_write_apply s x)) = Z.min (zv (sb_value_ s) + 1) max) /\
     ((x = SbPrefixDec \/ x = SbPostfixDec) -> int_fits sgn w (zv (sb_value_ s) - 1) ->
      zv (sb_value_ (sb_write_apply s x)) = Z.max (zv (sb_value_ s) - 1) min)) /\
  (forall (sgn : bool) (w : Z) (s : DynamicallyBounded (integer sgn w) false),
     2 <= w -> zv (min_ s) <= zv (max_ s) -> zv (min_ s) <= zv (db_value_ s) <= zv (max_ s) ->
     (int_fits sgn w (zv (db_value_ s) + 1) ->
      zv (db_value_ (db_inc s)) = Z.min (zv (db_value_ s) + 1) (zv (max_ s))) /\
     (int_fits sgn w (zv (db_value_ s) - 1) ->
      zv (db_value_ (db_dec s)) = Z.max (zv (db_value_ s) - 1) (zv (min_ s)))).
Proof.
  split.
  - intros sgn w min max s x Hw Hmin Hmax Hle Hr. split.
    + intros Hx Hf.
      assert (E : sb_write_apply s x = sb_assign s (num_add (sb_value_ s) (num_of_int 1)))
        by (destruct Hx as [-> | ->]; reflexivity).
      rewrite E, sb_clamp_int, I_add1 by (assumption || lia). lia.
    + intros Hx Hf.
      assert (E : sb_write_apply s x = sb_assign s (num_sub (sb_value_ s) (num_of_int 1)))
        by (destruct Hx as [-> | ->]; reflexivity).
      rewrite E, sb_clamp_int, I_sub1 by (assumption || lia). lia.
  - intros sgn w s Hw Hle Hr. unfold db_inc, db_dec. split.
    + intros Hf. rewrite db_clamp_int, I_add1 by assumption. lia.
    + intros Hf. rewrite db_clamp_int, I_sub1 by assumption. lia.
Qed.

(** ** [debuggerIsAttached] *)

Section DebuggerCheckProps.
Import DebuggerCheck.

Lemma prefixb_app_l (p l r : list ascii) :
  (List.length p <= List.length l)%nat -> prefixb p (l ++ r) = prefixb p l.
Proof.
  revert l. induction p as [|a p IH]; intros l Hl; [reflexivity|].
  destruct l as [|b l]; simpl in Hl; [lia|]. simpl. rewrite IH; [reflexivity|lia].
Qed.

Lemma prefixb_app_self (p r : list ascii) : prefixb p (p ++ r) = true.
Proof.
  induction p as [|a p IH]; [reflexivity|]. simpl. rewrite Ascii.eqb_refl. exact IH.
Qed.

Lemma prefixb_true_split (p l : list ascii) :
  prefixb p l = true -> exists b, l = p ++ b.
Proof.
  revert l. induction p as [|a p IH]; intros l E; [exists l; reflexivity|].
  destruct l as [|c l]; [discriminate|]. simpl in E.
  apply andb_true_iff in E as [E1 E2]. apply Ascii.eqb_eq in E1. subst c.
  destruct (IH l E2) as [b ->]. exists b. reflexivity.
Qed.

Lemma prefixb_nth (p l : list ascii) (k : nat) :
  prefixb p l = true -> (k < List.length p)%nat -> nth k l NUL = nth k p NUL.
Proof.
  intros E Hk. destruct (prefixb_true_split p l E) as [b ->].
  apply app_nth1. exact Hk.
Qed.

(** A position [find_from] returns is an occurrence. *)
Lemma find_from_occurs (n l : list ascii) (i k : nat) :
  find_from n l i = Some k -> exists a b, l = a ++ n ++ b.
Proof.
  revert i. induction l as [|c l IH]; intros i E; simpl in E.
  - destruct (prefixb n nil) eqn:P; [|discriminate].
    destruct (prefixb_true_split n nil P) as [b Hb]. exists nil, b. exact Hb.
  - destruct (prefixb n (c :: l)) eqn:P.
    + destruct (prefixb_true_split n _ P) as [b Hb]. exists nil, b. exact Hb.
    + destruct (IH (S i) E) as [a [b ->]]. exists (c :: a), b. reflexivity.
Qed.

Lemma find_from_none (n l : list ascii) (i : nat) :
  ~ (exists a b, l = a ++ n ++ b) -> find_from n l i = None.
Proof.
  intros Hn. destruct (find_from n l i) eqn:E; [|reflexivity].
  exfalso. apply Hn. eapply find_from_occurs. exact E.
Qed.

Lemma c_string_app_nonul (l r : list ascii) :
  forallb (fun c => negb (Ascii.eqb c NUL)) l = true ->
  c_string (l ++ r) = l ++ c_string r.
Proof.
  induction l as [|c l IH]; intros H; [reflexivity|].
  simpl in H. apply andb_true_iff in H as [H1 H2]. apply negb_true_iff in H1.
  simpl. rewrite H1, IH by exact H2. reflexivity.
Qed.

(** The C string of [firstn n (l ++ NUL :: r) ++ NUL :: r'] lies within
    [l]. *)
Lemma c_string_before_nul (l r r' : list ascii) (n : nat) :
  exists t, l = c_string (firstn n (l ++ NUL :: r) ++ NUL :: r') ++ t.
Proof.
  revert n. induction l as [|c l IH]; intros n.
  - exists nil. destruct n; reflexivity.
  - destruct n as [|n]; [exists (c :: l); reflexivity|].
    simpl. destruct (Ascii.eqb c NUL); [exists (c :: l); reflexivity|].
    destruct (IH n) as [t Ht]. exists t. simpl. rewrite <- Ht. reflexivity.
Qed.

Lemma c_string_prefix_app_nul (l r' : list ascii) :
  exists t, l = c_string (l ++ NUL :: r') ++ t.
Proof.
  induction l as [|c l IH].
  - exists nil. reflexivity.
  - simpl. destruct (Ascii.eqb c NUL); [exists (c :: l); reflexivity|].
    destruct IH as [t Ht]. exists t. simpl. rewrite <- Ht. reflexivity.
Qed.

Lemma occurs_prefix (n l t : list ascii) :
  (exists a b, l = a ++ n ++ b) -> exists a b, l ++ t = a ++ n ++ b.
Proof.
  intros [a [b ->]]. exists a, (b ++ t). rewrite <- !app_assoc. reflexivity.
Qed.

Lemma scan_tracer_pid_spaces (ws rest : list ascii) :
  forallb c_isspace ws = true -> scan_tracer_pid (ws ++ rest) = scan_tracer_pid rest.
Proof.
  induction ws as [|c ws IH]; intros H; [reflexivity|].
  simpl in H. apply andb_true_iff in H as [H1 H2]. simpl. rewrite H1. apply IH, H2.
Qed.

(** No proper suffix of ["TracerPid:"] starts with ['T']: an occurrence
    cannot start inside an earlier one. *)
Lemma tracerPidString_no_T (k : nat) :
  (0 < k < List.length tracerPidString)%nat -> nth k tracerPidString NUL <> "T"%char.
Proof.
  intros Hk. simpl in Hk.
  do 10 (destruct k as [|k]; [try lia; discriminate|]). lia.
Qed.

Lemma find_from_hit (n l : list ascii) (i : nat) :
  prefixb n l = true -> find_from n l i = Some i.
Proof. intros E. destruct l; simpl; rewrite E; reflexivity. Qed.

Lemma find_from_cons (n l : list ascii) (c : ascii) (i : nat) :
  find_from n (c :: l) i = if prefixb n (c :: l) then Some i else find_from n l (S i).
Proof. reflexivity. Qed.

(** The first occurrence, when no occurrence lies in the bytes before it. *)
Lemma find_from_first (pre z : list ascii) (i : nat) :
  ~ (exists a b, pre = a ++ tracerPidString ++ b) ->
  find_from tracerPidString (pre ++ tracerPidString ++ z) i = Some (i + List.length pre)%nat.
Proof.
  revert i. induction pre as [|c pre IH]; intros i Hn.
  - rewrite app_nil_l. rewrite find_from_hit by apply prefixb_app_self. f_equal. simpl. lia.
  - assert (P : prefixb tracerPidString ((c :: pre) ++ tracerPidString ++ z) = false).
    { destruct (prefixb tracerPidString ((c :: pre) ++ tracerPidString ++ z)) eqn:E;
        [exfalso|reflexivity].
      destruct (Nat.le_gt_cases (List.length tracerPidString) (List.length (c :: pre)))
        as [Hlen|Hlen].
      - rewrite prefixb_app_l in E by exact Hlen.
        destruct (prefixb_true_split _ _ E) as [b Hb]. apply Hn. exists nil, b. exact Hb.
      - pose proof (prefixb_nth _ _ (List.length (c :: pre)) E Hlen) as Hth.
        rewrite app_nth2 in Hth by lia. rewrite Nat.sub_diag in Hth.
        apply (tracerPidString_no_T (List.length (c :: pre))).
        + split; [simpl; lia|exact Hlen].
        + rewrite <- Hth. reflexivity. }
    rewrite <- app_comm_cons in P |- *. rewrite find_from_cons, P.
    rewrite IH.
    + f_equal. simpl. lia.
    + intros [a [b Hab]]. apply Hn. exists (c :: a), b. rewrite Hab. reflexivity.
Qed.

Lemma find_from_complete (n a b : list ascii) (i : nat) :
  find_from n (a ++ n ++ b) i <> None.
Proof.
  revert i. induction a as [|c a IH]; intros i.
  - rewrite app_nil_l, find_from_hit by apply prefixb_app_self. discriminate.
  - rewrite <- app_comm_cons, find_from_cons.
    destruct (prefixb n (c :: a ++ n ++ b)); [discriminate|apply IH].
Qed.

Lemma no_occurrence_of_find (n l : list ascii) :
  find_from n l 0 = None -> ~ (exists a b, l = a ++ n ++ b).
Proof.
  intros E [a [b ->]]. apply (find_from_complete n a b 0). exact E.
Qed.

(** X6. [debuggerIsAttached] returns [false] when ["/proc/self/status"]
    cannot be opened, when the read fails or returns no byte, and when the
    bytes read do not contain ["TracerPid:"]. *)
Theorem debugger_check_false_cases :
  debuggerIsAttached OpenFailed = false /\
  debuggerIsAttached ReadFailed = false /\
  debuggerIsAttached (ReadFile nil) = false /\
  (forall contents : list ascii,
     ~ (exists a b, contents = a ++ tracerPidString ++ b) ->
     debuggerIsAttached (ReadFile contents) = false).
Proof.
  split; [reflexivity|]. split; [reflexivity|]. split; [reflexivity|].
  intros contents Hn. unfold debuggerIsAttached, c_strstr.
  destruct (Nat.eqb _ 0); [reflexivity|].
  rewrite find_from_none; [reflexivity|].
  intros Ho. apply Hn.
  destruct (c_string_prefix_app_nul (firstn 4095 contents) nil) as [t Ht].
  rewrite <- (firstn_skipn 4095 contents), Ht, <- app_assoc.
  apply occurs_prefix. exact Ho.
Qed.

(** X7. When the status file (at most 4095 bytes) has its first
    ["TracerPid:"] after NUL-free text, followed by white space and then a
    byte [c] that is not white space, [debuggerIsAttached] returns
    [isdigit(c) && c != '0']: a tracer pid of [0] means no debugger. *)
Theorem debugger_check_reads_tracer_pid :
  forall (pre ws rest : list ascii) (c : ascii),
  ~ (exists a b, pre = a ++ tracerPidString ++ b) ->
  forallb (fun x => negb (Ascii.eqb x NUL)) pre = true ->
  forallb c_isspace ws = true -> c_isspace c = false ->
  (List.length (pre ++ tracerPidString ++ ws ++ c :: rest) <= 4095)%nat ->
  debuggerIsAttached (ReadFile (pre ++ tracerPidString ++ ws ++ c :: rest)) =
  c_isdigit c && negb (Ascii.eqb c "0"%char).
Proof.
  intros pre ws rest c Hn Hnul Hws Hc Hlen.
  unfold debuggerIsAttached, c_strstr.
  rewrite firstn_all2 by exact Hlen.
  replace (Nat.eqb (List.length (pre ++ tracerPidString ++ ws ++ c :: rest)) 0) with false
    by (symmetry; apply Nat.eqb_neq; rewrite !length_app; simpl; lia).
  rewrite <- !app_assoc.
  rewrite (c_string_app_nonul pre) by exact Hnul.
  rewrite (c_string_app_nonul tracerPidString) by reflexivity.
  rewrite find_from_first by exact Hn.
  replace (0 + List.length pre + List.length tracerPidString)%nat
    with (List.length (pre ++ tracerPidString)) by (rewrite length_app; lia).
  rewrite app_assoc, skipn_app, skipn_all, Nat.sub_diag, app_nil_l. simpl skipn.
  rewrite scan_tracer_pid_spaces by exact Hws.
  simpl. rewrite Hc. reflexivity.
Qed.

(** X8. [debuggerIsAttached] looks only at the first 4095 bytes of the
    file, and not past its first NUL byte: a ["TracerPid:"] that comes only
    after a NUL byte is never found, and the result is [false]. *)
Theorem debugger_check_examined_bytes :
  (forall contents : list ascii,
     debuggerIsAttached (ReadFile contents) =
     debuggerIsAttached (ReadFile (firstn 4095 contents))) /\
  (forall pre rest : list ascii,
     ~ (exists a b, pre = a ++ tracerPidString ++ b) ->
     debuggerIsAttached (ReadFile (pre ++ NUL :: rest)) = false).
Proof.
  split.
  - intros contents. unfold debuggerIsAttached.
    rewrite firstn_firstn, Nat.min_id. reflexivity.
  - intros pre rest Hn. unfold debuggerIsAttached, c_strstr.
    destruct (Nat.eqb _ 0); [reflexivity|].
    rewrite find_from_none; [reflexivity|].
    intros Ho. apply Hn.
    destruct (c_string_before_nul pre rest nil 4095) as [t Ht].
    rewrite Ht. apply occurs_prefix. exact Ho.
Qed.

End DebuggerCheckProps.

(** ** [float_cmp] and [approx] *)

Section ApproxProps.
Import Approx.

(** Rounding to nearest even does not depend on the sign. *)
Lemma binary_round_abs (prec emax : Z) (m : positive) (e : Z) :
  SFabs (binary_round prec emax true m e) = SFabs (binary_round prec emax false m e).
Proof.
  unfold binary_round, binary_round_aux.
  destruct (shl_align _ _ _) as [mz ez].
  destruct (shr_fexp _ _ _ _ _) as [mrs' e'].
  destruct (shr_fexp _ _ _ _ _) as [mrs'' e''].
  destruct (shr_m mrs'') as [|p|p]; [reflexivity| |reflexivity].
  destruct (Z.leb _ _); reflexivity.
Qed.

Lemma binary_normalize_abs_opp (prec emax : Z) (z e : Z) :
  SFabs (binary_normalize prec emax (- z) e false) =
  SFabs (binary_normalize prec emax z e false).
Proof.
  destruct z as [|p|p]; simpl; [reflexivity|apply binary_round_abs|].
  symmetry. apply binary_round_abs.
Qed.

(** [|a - b| = |b - a|] in [float]. *)
Lemma sub_abs_comm (a b : spec_float) : SFabs (sub a b) = SFabs (sub b a).
Proof.
  destruct a as [sa|sa| |sa ma ea], b as [sb|sb| |sb mb eb];
    try destruct sa; try destruct sb; try reflexivity;
    unfold sub, SFsub; rewrite (Z.min_comm eb ea);
    match goal with
    | |- SFabs (binary_normalize _ _ (?x - ?y) _ _) = _ =>
        replace (x - y) with (- (y - x)) by lia; apply binary_normalize_abs_opp
    end.
Qed.

Lemma sub_self_finite (s : bool) (m : positive) (e : Z) :
  sub (S754_finite s m e) (S754_finite s m e) = S754_zero false.
Proof. unfold sub, SFsub. rewrite Z.sub_diag. reflexivity. Qed.

Lemma abs_cases (x : spec_float) :
  SFabs x = S754_nan \/ SFabs x = S754_zero false \/ SFabs x = S754_infinity false \/
  exists m e, SFabs x = S754_finite false m e.
Proof.
  destruct x as [s|s| |s m e]; simpl; auto. right; right; right. exists m, e. reflexivity.
Qed.

(** X10. [approx] equality is symmetric in the two floats, with the
    default margin or any margin set by [margin(m)], and so is the
    comparison of [float_cmp(margin)]: [|a - b|] and [|b - a|] are the same
    float. *)
Theorem approx_symmetric :
  (forall a b : spec_float, eqb (approx_make a) b = eqb (approx_make b) a) /\
  (forall m a b : spec_float,
     eqb (margin (approx_make a) m) b = eqb (margin (approx_make b) m) a) /\
  (forall m a b : spec_float, float_cmp m a b = float_cmp m b a).
Proof.
  split; [|split]; intros; unfold eqb, float_cmp; simpl; rewrite sub_abs_comm; reflexivity.
Qed.

(** X11. [approx(x) == x] holds exactly when [x] is finite (zero
    included): it is false for an infinity ([inf - inf] is NaN) and for
    NaN. This holds for the default margin and for any margin greater than
    zero. *)
Theorem approx_equals_itself :
  (forall x : spec_float,
     eqb (approx_make x) x =
     match x with S754_zero _ | S754_finite _ _ _ => true | _ => false end) /\
  (forall m x : spec_float, SFltb (S754_zero false) m = true ->
     eqb (margin (approx_make x) m) x =
     match x with S754_zero _ | S754_finite _ _ _ => true | _ => false end).
Proof.
  assert (G : forall m x : spec_float, SFltb (S754_zero false) m = true ->
     SFltb (SFabs (sub x x)) m =
     match x with S754_zero _ | S754_finite _ _ _ => true | _ => false end).
  { intros m x Hm. destruct x as [s|s| |s mx ex].
    - destruct s; exact Hm.
    - destruct s; reflexivity.
    - reflexivity.
    - rewrite sub_self_finite. exact Hm. }
  split.
  - intros x. apply G. vm_compute. reflexivity.
  - intros m x Hm. apply G. exact Hm.
Qed.

(** X12. With a margin that is not greater than zero (zero, negative or
    NaN), [approx(a).margin(m) == b] and [float_cmp(m)(a, b)] are false for
    all floats [a] and [b]. *)
Theorem approx_nonpositive_margin :
  forall m : spec_float, SFltb (S754_zero false) m = false ->
  forall a b : spec_float,
  eqb (margin (approx_make a) m) b = false /\ float_cmp m a b = false.
Proof.
  intros m Hm a b. unfold eqb, float_cmp. simpl.
  assert (G : SFltb (SFabs (sub a b)) m = false).
  { destruct (abs_cases (sub a b)) as [E|[E|[E|[mm [ee E]]]]]; rewrite E;
      destruct m as [s|s| |s mm' ee']; try destruct s; try reflexivity; discriminate. }
  split; exact G.
Qed.

End ApproxProps.

(** ** Witnesses of the properties of the remaining code *)

Lemma sb_writes_stay_in_range_witness :
  0 <= zv (sb_value_ (sb_writes (@sb_make unsigned _ 0 11 true (Integer 5))
                        (cons (SbAddAssign (Integer 10)) (cons SbPostfixInc
                           (cons (SbDivAssign (Integer 2)) nil))))) <= 11.
Proof.
  apply (sb_writes_stay_in_range 32 0 11 true);
    first [reflexivity | lia | fits | intros _; fits].
Defined.

Lemma db_writes_keep_bounds_and_range_witness :
  let s := @db_make unsigned _ true (Integer 3) (Integer 2) (Integer 11) in
  let ws := cons (DbSubAssign (Integer 20)) (cons DbDec (cons (DbMulAssign (Integer 7)) nil)) in
  (min_ (db_writes s ws) = min_ s /\ max_ (db_writes s ws) = max_ s) /\
  (zv (min_ s) <= zv (db_value_ (db_writes s ws)) <= zv (max_ s)).
Proof.
  destruct db_writes_keep_bounds_and_range as [A B]. cbn zeta.
  split; [apply A|].
  apply (B 32 true (db_make (Integer 3) (Integer 2) (Integer 11)));
    first [reflexivity | lia | fits | intros _; fits | left; discriminate].
Defined.

Lemma wrap_assign_periodic_witness :
  sb_assign (@mkStaticallyBounded int 0 11 true (Integer 4)) (Integer (15 + 2 * (11 - 0 + 1))) =
  sb_assign (@mkStaticallyBounded int 0 11 true (Integer 4)) (Integer 15) /\
  db_assign (@mkDynamicallyBounded int true (Integer 4) (Integer (-3)) (Integer 3))
    (Integer (-9 + (-1) * (3 - (-3) + 1))) =
  db_assign (@mkDynamicallyBounded int true (Integer 4) (Integer (-3)) (Integer 3)) (Integer (-9)).
Proof.
  destruct wrap_assign_periodic as [A B]. split.
  - apply (A true 32 0 11 _ (Integer 15) 2); cbn; try fits; lia.
  - apply (B true 32 (@mkDynamicallyBounded int true (Integer 4) (Integer (-3)) (Integer 3))
             (Integer (-9)) (-1)); cbn; try fits; lia.
Defined.

Lemma wrap_increment_cycle_witness :
  zv (sb_value_ (sb_write_apply (@mkStaticallyBounded int 0 11 true (Integer 11)) SbPrefixInc)) = 0 /\
  zv (sb_value_ (sb_write_apply (@mkStaticallyBounded int 0 11 true (Integer 0)) SbPostfixDec)) = 11 /\
  sb_write_apply (sb_write_apply (@mkStaticallyBounded int 0 11 true (Integer 11)) SbPostfixInc)
    SbPrefixDec = @mkStaticallyBounded int 0 11 true (Integer 11) /\
  zv (db_value_ (db_inc (@mkDynamicallyBounded int true (Integer 5) (Integer (-5)) (Integer 5)))) = -5 /\
  db_dec (db_inc (@mkDynamicallyBounded int true (Integer 2) (Integer (-5)) (Integer 5))) =
    @mkDynamicallyBounded int true (Integer 2) (Integer (-5)) (Integer 5).
Proof.
  destruct wrap_increment_cycle as [A B].
  destruct (A 32 0 11 (@mkStaticallyBounded int 0 11 true (Integer 11))) as [A1 _];
    try fits; try lia.
  destruct (A 32 0 11 (@mkStaticallyBounded int 0 11 true (Integer 0))) as [_ [A2 _]];
    try fits; try lia.
  destruct (A 32 0 11 (@mkStaticallyBounded int 0 11 true (Integer 11))) as [_ [_ A3]];
    try fits; try lia.
  destruct (B 32 (@mkDynamicallyBounded int true (Integer 5) (Integer (-5)) (Integer 5)))
    as [B1 _]; try (cbn; lia); try fits.
  destruct (B 32 (@mkDynamicallyBounded int true (Integer 2) (Integer (-5)) (Integer 5)))
    as [_ [_ B3]]; try (cbn; lia); try fits.
  split; [apply A1; reflexivity|]. split; [apply A2; reflexivity|].
  split; [apply (proj1 (A3 SbPostfixInc SbPrefixDec ltac:(cbn; lia) (or_intror eq_refl) (or_introl eq_refl)))|].
  split; [apply B1; reflexivity|]. apply (proj1 (B3 ltac:(cbn; lia))).
Defined.

Lemma clamp_increment_saturates_witness :
  zv (sb_value_ (sb_write_apply (@mkStaticallyBounded int 0 127 false (Integer 127)) SbPrefixInc)) =
    Z.min (127 + 1) 127 /\
  zv (db_value_ (db_dec (@mkDynamicallyBounded int false (Integer 0) (Integer 0) (Integer 10)))) =
    Z.max (0 - 1) 0.
Proof.
  destruct clamp_increment_saturates as [A B]. split.
  - apply (proj1 (A true 32 0 127 (@mkStaticallyBounded int 0 127 false (Integer 127)) SbPrefixInc
                    ltac:(lia) ltac:(fits) ltac:(fits) ltac:(lia) ltac:(cbn; lia))).
    + left. reflexivity.
    + fits.
  - apply (proj2 (B true 32 (@mkDynamicallyBounded int false (Integer 0) (Integer 0) (Integer 10))
                    ltac:(lia) ltac:(cbn; lia) ltac:(cbn; lia))).
    fits.
Defined.

Lemma debugger_check_false_cases_witness :
  DebuggerCheck.debuggerIsAttached
    (DebuggerCheck.ReadFile (list_ascii_of_string "Name:	cat")) = false.
Proof.
  destruct debugger_check_false_cases as [_ [_ [_ D]]].
  apply D. apply no_occurrence_of_find. vm_compute. reflexivity.
Defined.

Lemma debugger_check_reads_tracer_pid_witness :
  DebuggerCheck.debuggerIsAttached
    (DebuggerCheck.ReadFile
       (list_ascii_of_string "Name:	cat Tgid:	1 " ++ DebuggerCheck.tracerPidString ++
        list_ascii_of_string "	" ++ "4"%char :: list_ascii_of_string "21 Uid:	0")) =
  DebuggerCheck.c_isdigit "4"%char && negb (Ascii.eqb "4"%char "0"%char).
Proof.
  apply debugger_check_reads_tracer_pid.
  - apply no_occurrence_of_find. vm_compute. reflexivity.
  - vm_compute. reflexivity.
  - vm_compute. reflexivity.
  - vm_compute. reflexivity.
  - vm_compute. lia.
Defined.

Lemma debugger_check_examined_bytes_witness :
  DebuggerCheck.debuggerIsAttached
    (DebuggerCheck.ReadFile
       (list_ascii_of_string "Name:	cat" ++ DebuggerCheck.NUL ::
        DebuggerCheck.tracerPidString ++ list_ascii_of_string " 7")) = false.
Proof.
  destruct debugger_check_examined_bytes as [_ B].
  apply B. apply no_occurrence_of_find. vm_compute. reflexivity.
Defined.

Lemma approx_equals_itself_witness :
  Approx.eqb (Approx.margin (Approx.approx_make (S754_finite false 3 (-1))) (S754_finite false 1 (-10)))
    (S754_finite false 3 (-1)) = true.
Proof.
  destruct approx_equals_itself as [_ B].
  apply (B _ (S754_finite false 3 (-1))). vm_compute. reflexivity.
Defined.

Lemma approx_nonpositive_margin_witness :
  Approx.eqb (Approx.margin (Approx.approx_make (S754_finite false 3 (-1))) (S754_zero false))
    (S754_finite false 3 (-1)) = false /\
  Approx.float_cmp (S754_zero false) (S754_finite false 3 (-1)) (S754_finite false 3 (-1)) = false.
Proof.
  apply approx_nonpositive_margin. vm_compute. reflexivity.
Defined.
